(** * nexus-ui-ts: the numeric transforms and the [Lowpass] smoothing filter

    A shallow embedding of the numeric core of the library.

    - Module [Js].  A TypeScript [number] is an IEEE-754 binary64 value.  It is
      embedded as the standard library's [spec_float] at precision 53 and
      maximal exponent 1024, so that [+], [-], [*], [/], [<], [===],
      [Math.min], [Math.max], [Math.floor] and [Math.sqrt] round and propagate
      [NaN], infinities and signed zeros the way the engine does.
      [Math.random()] is an explicit argument, the draw.  The module holds
      [clip], [normalize], [scale], [invert], [interp], [pick], [ri], [rf],
      [cycle], [average], [distance] and [coin].

    - Module [Smooth].  The class [Lowpass] as a record and its methods as
      functions that return the updated record.  The capacity [factor] is only
      ever compared with and subtracted from an array length; it is held as an
      integer.

    - Module [Polar].  [toPolar] and [toCartesian] over binary64.  ECMAScript
      leaves the values of [Math.atan2], [Math.cos] and [Math.sin] to the
      implementation, so the two functions take them as parameters; what is
      proved holds for every engine. *)

From Stdlib Require Import ZArith List Bool Lia.
From Stdlib Require Import SpecFloat.
Import ListNotations.

(** ** binary64 numbers *)

Module Js.

Local Open Scope Z_scope.

Definition prec : Z := 53.
Definition emax : Z := 1024.

Definition number : Type := spec_float.

(** The values an engine can hold: canonical mantissa, exponent in range. *)
Definition is_number (x : number) : Prop := valid_binary prec emax x = true.

Definition nan : number := S754_nan.

(** The binary64 value nearest to [m * 2^e]. *)
Definition dyadic (m e : Z) : number := binary_normalize prec emax m e false.

(** Integer literals and array lengths converted to [number]. *)
Definition of_Z (z : Z) : number := dyadic z 0.
Definition of_nat (n : nat) : number := of_Z (Z.of_nat n).

Definition zero : number := Eval vm_compute in of_Z 0.
Definition one : number := Eval vm_compute in of_Z 1.
Definition two : number := Eval vm_compute in of_Z 2.
(** The literal [0.5]. *)
Definition half : number := Eval vm_compute in dyadic 1 (-1).

Definition add : number -> number -> number := SFadd prec emax.
Definition sub : number -> number -> number := SFsub prec emax.
Definition mul : number -> number -> number := SFmul prec emax.
Definition div : number -> number -> number := SFdiv prec emax.
Definition neg : number -> number := SFopp.

(** [a < b], [a <= b] and [a === b] on numbers. *)
Definition lt (a b : number) : bool := SFltb a b.
Definition le (a b : number) : bool := SFleb a b.
Definition strict_eq (a b : number) : bool := SFeqb a b.

(** [!x] is true for [NaN], [+0] and [-0]. *)
Definition falsy (x : number) : bool :=
  match x with
  | S754_nan | S754_zero _ => true
  | _ => false
  end.

(** [Math.max(a, b)]: [NaN] if either is; [+0] is larger than [-0]. *)
Definition Math_max (a b : number) : number :=
  match SFcompare a b with
  | None => nan
  | Some Gt => a
  | Some Lt => b
  | Some Eq =>
      match a, b with
      | S754_zero true, S754_zero _ => b
      | _, _ => a
      end
  end.

(** [Math.min(a, b)]: [NaN] if either is; [-0] is smaller than [+0]. *)
Definition Math_min (a b : number) : number :=
  match SFcompare a b with
  | None => nan
  | Some Lt => a
  | Some Gt => b
  | Some Eq =>
      match a, b with
      | S754_zero false, S754_zero _ => b
      | _, _ => a
      end
  end.

(** [Math.floor(x)]: the largest integer not above [x]; zeros, infinities and
    [NaN] are returned as they are, and a zero result keeps the sign of [x]. *)
Definition Math_floor (x : number) : number :=
  match x with
  | S754_finite s m e =>
      if 0 <=? e then x
      else
        let q := Z.shiftr (Zpos m) (- e) in
        let whole := Zpos m =? Z.shiftl q (- e) in
        let z := if s then (if whole then - q else - (q + 1)) else q in
        binary_normalize prec emax z 0 s
  | _ => x
  end.

(** *** The numeric transforms *)

Definition clip (value min max : number) : number :=
  Math_min (Math_max value min) max.

Definition scale (inNum inMin inMax outMin outMax : number) : number :=
  if strict_eq inMin inMax
  then outMin
  else add (div (mul (sub inNum inMin) (sub outMax outMin)) (sub inMax inMin)) outMin.

Definition invert (inNum : number) : number :=
  scale inNum one zero zero one.

(** [ri] and [rf] take the value of [Math.random()] as [random]. *)
Definition ri (random bound1 bound2 : number) : number :=
  let '(bound1, bound2) :=
    if falsy bound2 then (zero, bound1) else (bound1, bound2) in
  let low := Math_min bound1 bound2 in
  let high := Math_max bound1 bound2 in
  Math_floor (add (mul random (sub high low)) low).

Definition rf (random bound1 bound2 : number) : number :=
  let '(bound1, bound2) :=
    if falsy bound2 then (zero, bound1) else (bound1, bound2) in
  let low := Math_min bound1 bound2 in
  let high := Math_max bound1 bound2 in
  add (mul random (sub high low)) low.

(** [data.reduce((a, b) => a + b, 0)]. *)
Definition reduce_sum (data : list number) : number :=
  fold_left (fun a b => add a b) data zero.

Definition average (data : list number) : number :=
  div (reduce_sum data) (of_nat (length data)).

(** [coin(odds = 0.5)]: an omitted argument is [None]. *)
Definition coin (random : number) (odds : option number) : number :=
  let odds := match odds with Some o => o | None => half end in
  if lt (rf random zero one) odds then one else zero.

(** What [Math.random()] returns: a binary64 value in [[0, 1)]. *)
Definition unit_draw (u : number) : Prop :=
  is_number u /\ le zero u = true /\ lt u one = true.

(** The arithmetic mean of the sequence [x :: rest], as the spec words it:
    the sum of the elements, taken left to right, over their count. *)
Definition arithmetic_mean (x : number) (rest : list number) : number :=
  div (fold_left add rest x) (of_nat (length (x :: rest))).

(** *** More of the numeric transforms *)

(** [Number.isFinite]: neither [NaN] nor an infinity. *)
Definition finite (x : number) : bool :=
  match x with
  | S754_zero _ | S754_finite _ _ _ => true
  | _ => false
  end.

(** [a >= b]: false when either is [NaN]. *)
Definition ge (a b : number) : bool :=
  match SFcompare a b with
  | Some (Gt | Eq) => true
  | _ => false
  end.

(** [Math.sqrt], the correctly rounded square root. *)
Definition Math_sqrt : number -> number := SFsqrt prec emax.

Definition normalize (value min max : number) : number :=
  div (sub value min) (sub max min).

Definition interp (loc min max : number) : number :=
  add (mul loc (sub max min)) min.

(** [input++] is [input + 1]. *)
Definition cycle (input min max : number) : number :=
  let input := add input one in
  if ge input max then min else input.

Definition distance (x1 y1 x2 y2 : number) : number :=
  let a := sub x1 x2 in
  let b := sub y1 y2 in
  Math_sqrt (add (mul a a) (mul b b)).

(** [Math.PI]: the binary64 value nearest to pi, [0x400921FB54442D18]. *)
Definition Math_PI : number := S754_finite false 7074237752028440 (-51).

(** [~~x]: [x] truncated towards zero and wrapped to a signed 32-bit
    integer; [NaN] and the infinities give [0]. *)
Definition to_int32 (x : number) : Z :=
  match x with
  | S754_finite s m e =>
      let t := if 0 <=? e then Z.shiftl (Zpos m) e else Z.shiftr (Zpos m) (- e) in
      let t := if s then - t else t in
      (t + 2 ^ 31) mod 2 ^ 32 - 2 ^ 31
  | _ => 0
  end.

(** [pick(...arguments)] with the draw [random]; [None] is [undefined], the
    value of an index that the array does not hold. *)
Definition pick {A : Type} (random : number) (arguments : list A) : option A :=
  let i := to_int32 (mul random (of_nat (length arguments))) in
  if i <? 0 then None else nth_error arguments (Z.to_nat i).

(** *** Auxiliary values used in the proofs *)

(** [-1], the value of [0 - 1] in [invert]. *)
Definition minus_one : number := Eval vm_compute in of_Z (-1).

(** Negation that sends both zeros to [+0]: the effect of
    [(y * 1) / (0 - 1) + 0] on a difference [y]. *)
Definition negate_to_pzero (y : number) : number :=
  match y with
  | S754_zero _ => zero
  | _ => SFopp y
  end.

(** A shift register holding [m] with no bits shifted out yet. *)
Definition exact_record (m : Z) : shr_record := Build_shr_record m false false.

(** The mantissa and the exponent of the binary64 form of a positive integer
    [q] below [2^53]: [q] shifted left to 53 bits. *)
Definition integer_mantissa (q : positive) : positive :=
  Nat.iter (53 - Pos.to_nat (digits2_pos q)) xO q.
Definition integer_exponent (q : positive) : Z := Zpos (digits2_pos q) - 53.

(** The outcome [m1] of rounding a mantissa [M] from which [k] bits are cut:
    the quotient by [2^k], or one more when the bits cut off amount to at
    least half of [2^k]. *)
Definition rounded (M k m1 : Z) : Prop :=
  m1 = M / 2 ^ k \/ (m1 = M / 2 ^ k + 1 /\ 2 ^ k <= 2 * (M mod 2 ^ k)).

(** [m * 2^e] counted in units of [2^-2148], an integer for every exponent
    that the sums and products of two binary64 values can have. *)
Definition scaled (m e : Z) : Z := m * 2 ^ (e + 2148).

(** The value of a finite number in those units; [0] for the others. *)
Definition units (x : number) : Z :=
  match x with
  | S754_finite s m e => cond_Zopp s (scaled (Zpos m) e)
  | _ => 0
  end.

End Js.

(** ** The smoothing filter ([smooth.ts]) *)

Module Smooth.
Import Js.
Local Open Scope Z_scope.

Record Lowpass : Type := { factor : Z; history : list number }.

(** [constructor(factor)]: [this.factor = factor || 2; this.history = []].
    An omitted argument is [None]. *)
Definition constructor (factor : option Z) : Lowpass :=
  {| factor := match factor with
               | Some f => if f =? 0 then 2 else f
               | None => 2
               end;
     history := [] |}.

(** [a.splice(0, deleteCount)]: the count is clamped to [[0, a.length]] and
    that many elements leave the front of the array. *)
Definition splice_front (deleteCount : Z) (a : list number) : list number :=
  skipn (Z.to_nat (Z.min (Z.max deleteCount 0) (Z.of_nat (length a)))) a.

(** [update(value)] returns the mean and the filter as the call leaves it. *)
Definition update (self : Lowpass) (value : number) : number * Lowpass :=
  let history := history self ++ [value] in
  let history :=
    if Z.of_nat (length history) >? factor self
    then splice_front (Z.of_nat (length history) - factor self) history
    else history in
  let val := div (reduce_sum history) (of_nat (length history)) in
  (val, {| factor := factor self; history := history |}).

(** The filter after one [update] per sample, in order. *)
Fixpoint feed (self : Lowpass) (samples : list number) : Lowpass :=
  match samples with
  | [] => self
  | value :: rest => feed (snd (update self value)) rest
  end.

(** The values those [update] calls return. *)
Fixpoint outputs (self : Lowpass) (samples : list number) : list number :=
  match samples with
  | [] => []
  | value :: rest => fst (update self value) :: outputs (snd (update self value)) rest
  end.

(** The [n] latest of the samples received, oldest first. *)
Definition most_recent (n : nat) (samples : list number) : list number :=
  skipn (length samples - n) samples.

End Smooth.

(** ** Polar coordinates *)

Module Polar.
Import Js.
Local Open Scope Z_scope.

Record PolarCoord : Type := { radius : number; angle : number }.

Section Engine.

(** The engine's [Math.atan2], [Math.cos] and [Math.sin]. *)
Variable Math_atan2 : number -> number -> number.
Variables Math_cos Math_sin : number -> number.

Definition toPolar (x y : number) : PolarCoord :=
  let r := Math_sqrt (add (mul x x) (mul y y)) in
  let theta := Math_atan2 y x in
  let theta := if lt theta zero then add theta (mul two Math_PI) else theta in
  {| radius := r; angle := theta |}.


End Engine.

(** What ECMAScript requires of [Math.atan2(y, x)]: a number, [NaN] when an
    argument is [NaN], and otherwise an angle from -pi to pi.  The binary64
    values in that range are those from [-Math.PI] to [Math.PI]. *)
Definition atan2_conforms (Math_atan2 : number -> number -> number) : Prop :=
  forall y x : number,
    is_number (Math_atan2 y x) /\
    (y = nan \/ x = nan -> Math_atan2 y x = nan) /\
    (y <> nan -> x <> nan ->
     le (neg Math_PI) (Math_atan2 y x) = true /\ le (Math_atan2 y x) Math_PI = true).

(** The coarsest function that meets [atan2_conforms]: [NaN] on a [NaN]
    argument, [+0] elsewhere.  It shows that the conditions can be met. *)
Definition coarse_atan2 (y x : number) : number :=
  match y, x with
  | S754_nan, _ | _, S754_nan => nan
  | _, _ => zero
  end.

End Polar.

(** ** Order on binary64 values *)

Section Ordering.
Import Js.
Local Open Scope Z_scope.

Lemma compare_cont_Eq (p q : positive) : Pos.compare_cont Eq p q = Pos.compare p q.
Proof. reflexivity. Qed.

(** Case analysis on the values compared: only comparisons between two
    finite values of the same sign are left, stated with [Pos.compare]. *)
Ltac compare_cases :=
  cbn [SFcompare]; intros;
  repeat match goal with s : bool |- _ => destruct s end;
  try discriminate; try reflexivity;
  rewrite ?compare_cont_Eq in *.

(** [SFcompare] is a lexicographic order on sign, exponent and mantissa, so
    [<] is transitive on every triple of values. *)
Lemma SFcompare_Lt_trans (a b c : number) :
  SFcompare a b = Some Lt -> SFcompare b c = Some Lt -> SFcompare a c = Some Lt.
Proof.
  destruct a as [sa|sa| |sa ma ea], b as [sb|sb| |sb mb eb], c as [sc|sc| |sc mc ec];
    compare_cases.
  all: destruct (Z.compare_spec ea eb), (Z.compare_spec eb ec); try discriminate;
       destruct (Z.compare_spec ea ec); try lia; try reflexivity.
  all: destruct (Pos.compare_spec ma mb), (Pos.compare_spec mb mc); try discriminate;
       destruct (Pos.compare_spec ma mc); try lia; try reflexivity.
Qed.

(** Values that compare equal are interchangeable on the right of [<]. *)
Lemma SFcompare_Eq_Lt (a b c : number) :
  SFcompare a b = Some Eq -> SFcompare c b = Some Lt -> SFcompare c a = Some Lt.
Proof.
  destruct a as [sa|sa| |sa ma ea], b as [sb|sb| |sb mb eb], c as [sc|sc| |sc mc ec];
    compare_cases.
  all: destruct (Z.compare_spec ea eb); try discriminate;
       destruct (Pos.compare_spec ma mb); try discriminate; subst; assumption.
Qed.

Lemma SFcompare_Lt_Gt (a b : number) :
  SFcompare a b = Some Lt -> SFcompare b a = Some Gt.
Proof.
  destruct a as [sa|sa| |sa ma ea], b as [sb|sb| |sb mb eb]; compare_cases.
  all: rewrite (Z.compare_antisym ea eb), (Pos.compare_antisym ma mb);
       destruct (ea ?= eb), (ma ?= mb)%positive; try discriminate; reflexivity.
Qed.

Lemma SFcompare_Gt_Lt (a b : number) :
  SFcompare a b = Some Gt -> SFcompare b a = Some Lt.
Proof.
  destruct a as [sa|sa| |sa ma ea], b as [sb|sb| |sb mb eb]; compare_cases.
  all: rewrite (Z.compare_antisym ea eb), (Pos.compare_antisym ma mb);
       destruct (ea ?= eb), (ma ?= mb)%positive; try discriminate; reflexivity.
Qed.

Lemma lt_SFcompare (a b : number) : lt a b = true <-> SFcompare a b = Some Lt.
Proof.
  unfold lt, SFltb. destruct (SFcompare a b) as [[]|]; split; congruence.
Qed.

End Ordering.

(** ** Rounding of binary64 values *)

Section Rounding.
Import Js.
Local Open Scope Z_scope.

(** *** Values that need no rounding *)

Lemma fexp_eq (x : Z) : fexp prec emax x = Z.max (x - 53) (-1074).
Proof. reflexivity. Qed.

Lemma iter_pos_nat {A} (f : A -> A) (n : positive) (x : A) :
  iter_pos f n x = Nat.iter (Pos.to_nat n) f x.
Proof.
  revert x. induction n as [n IH|n IH|]; intros x; cbn [iter_pos].
  - rewrite !IH, Pos2Nat.inj_xI.
    replace (S (2 * Pos.to_nat n))%nat with (Pos.to_nat n + S (Pos.to_nat n))%nat by lia.
    rewrite Nat.iter_add. cbn [Nat.iter nat_rect]. rewrite Nat.iter_swap. reflexivity.
  - rewrite !IH, Pos2Nat.inj_xO.
    replace (2 * Pos.to_nat n)%nat with (Pos.to_nat n + Pos.to_nat n)%nat by lia.
    rewrite Nat.iter_add. reflexivity.
  - reflexivity.
Qed.

Lemma shr_1_double (m : positive) :
  shr_1 (exact_record (Zpos m~0)) = exact_record (Zpos m).
Proof. reflexivity. Qed.

Lemma shr_iter_double (k : nat) (m : positive) :
  Nat.iter k shr_1 (exact_record (Zpos (Nat.iter k xO m))) = exact_record (Zpos m).
Proof.
  induction k as [|k IH]; [reflexivity|].
  rewrite Nat.iter_succ_r.
  change (Nat.iter (S k) xO m) with (xO (Nat.iter k xO m)).
  rewrite shr_1_double. exact IH.
Qed.

Lemma shr_exact (k : nat) (m : positive) (e : Z) :
  shr (exact_record (Zpos (Nat.iter k xO m))) e (Z.of_nat k)
  = (exact_record (Zpos m), e + Z.of_nat k).
Proof.
  destruct k as [|k].
  - cbn. now rewrite Z.add_0_r.
  - cbn [Z.of_nat shr]. rewrite iter_pos_nat, SuccNat2Pos.id_succ, shr_iter_double.
    reflexivity.
Qed.

Lemma digits_iter_double (k : nat) (m : positive) :
  Zpos (digits2_pos (Nat.iter k xO m)) = Zpos (digits2_pos m) + Z.of_nat k.
Proof.
  induction k as [|k IH]; [cbn; lia|].
  change (Nat.iter (S k) xO m) with (xO (Nat.iter k xO m)).
  cbn [digits2_pos]. rewrite Pos2Z.inj_succ, IH. lia.
Qed.

Lemma bounded_inv (m : positive) (e : Z) :
  bounded prec emax m e = true ->
  fexp prec emax (Zpos (digits2_pos m) + e) = e /\ e <= 971.
Proof.
  unfold bounded, canonical_mantissa. intros H.
  apply andb_true_iff in H. destruct H as [H1 H2].
  apply Z.eqb_eq in H1. apply Z.leb_le in H2. split; [exact H1|exact H2].
Qed.

(** Rounding a value that is already representable returns it unchanged. *)
Lemma binary_round_aux_exact (s : bool) (m : positive) (e : Z) (k : nat) :
  bounded prec emax m e = true ->
  binary_round_aux prec emax s (Zpos (Nat.iter k xO m)) (e - Z.of_nat k) loc_Exact
  = S754_finite s m e.
Proof.
  intros Hb. pose proof (bounded_inv m e Hb) as [Hc He].
  unfold binary_round_aux, shr_fexp.
  cbn [Zdigits2 shr_record_of_loc]. rewrite digits_iter_double.
  replace (Zpos (digits2_pos m) + Z.of_nat k + (e - Z.of_nat k))
    with (Zpos (digits2_pos m) + e) by lia.
  rewrite Hc. replace (e - (e - Z.of_nat k)) with (Z.of_nat k) by lia.
  change (Build_shr_record (Zpos (Nat.iter k xO m)) false false)
    with (exact_record (Zpos (Nat.iter k xO m))).
  rewrite shr_exact.
  cbn [exact_record shr_m loc_of_shr_record round_nearest_even Zdigits2 shr_record_of_loc].
  replace (e - Z.of_nat k + Z.of_nat k) with e by lia.
  rewrite Hc, Z.sub_diag. cbn [shr shr_m].
  change (emax - prec) with 971. apply Z.leb_le in He. rewrite He. reflexivity.
Qed.

Lemma mul_one_r (s : bool) (m : positive) (e : Z) :
  bounded prec emax m e = true ->
  mul (S754_finite s m e) one = S754_finite s m e.
Proof.
  intros Hb. unfold mul, one. cbn [SFmul]. rewrite xorb_false_r, Pos.mul_comm.
  change (4503599627370496 * m)%positive with (Nat.iter 52 xO m).
  change (e + -52) with (e - Z.of_nat 52).
  now apply binary_round_aux_exact.
Qed.

Lemma rf_unit (u : number) : rf u zero one = add (mul u one) zero.
Proof. reflexivity. Qed.

Lemma rf_unit_draw (u : number) :
  unit_draw u -> rf u zero one = match u with S754_zero _ => zero | _ => u end.
Proof.
  intros (Hv & Hle & Hlt). rewrite rf_unit.
  destruct u as [s|s| |s m e]; try discriminate; try (destruct s; discriminate).
  - destruct s; reflexivity.
  - rewrite mul_one_r by exact Hv. reflexivity.
Qed.

(** *** Digit counts through the shifts of the rounding *)

Lemma digits2_pos_bounds (p : positive) :
  2 ^ (Zpos (digits2_pos p) - 1) <= Zpos p < 2 ^ Zpos (digits2_pos p).
Proof.
  induction p as [p IH|p IH|]; cbn [digits2_pos]; [| |cbn; lia].
  all: rewrite Pos2Z.inj_succ;
    replace (Z.succ (Zpos (digits2_pos p)) - 1) with (Z.succ (Zpos (digits2_pos p) - 1)) by lia;
    rewrite !Z.pow_succ_r by lia; lia.
Qed.

Lemma Zdigits2_nonneg (z : Z) : 0 <= Zdigits2 z.
Proof. destruct z; cbn; lia. Qed.

Lemma Zdigits2_pos (z : Z) : 0 < z -> 0 < Zdigits2 z.
Proof. destruct z; cbn; lia. Qed.

Lemma Zdigits2_pos_inv (z : Z) : 0 <= z -> 0 < Zdigits2 z -> 0 < z.
Proof. destruct z; cbn; lia. Qed.

Lemma Zdigits2_succ (z : Z) :
  0 <= z -> Zdigits2 z <= Zdigits2 (z + 1) <= Zdigits2 z + 1.
Proof.
  intros Hz. destruct z as [|p|p]; [cbn; lia| |lia].
  replace (Zpos p + 1) with (Zpos (p + 1)) by lia. cbn [Zdigits2].
  pose proof (digits2_pos_bounds p) as Hp.
  pose proof (digits2_pos_bounds (p + 1)) as Hq.
  set (d := Zpos (digits2_pos p)) in *. set (d' := Zpos (digits2_pos (p + 1))) in *.
  assert (Hd : 0 < d) by (unfold d; lia). assert (Hd' : 0 < d') by (unfold d'; lia).
  split.
  - destruct (Z.le_gt_cases d d') as [|Hlt]; [assumption|exfalso].
    assert (2 ^ d' <= 2 ^ (d - 1)) by (apply Z.pow_le_mono_r; lia). lia.
  - destruct (Z.le_gt_cases d' (d + 1)) as [|Hlt]; [assumption|exfalso].
    assert (2 ^ (d + 1) <= 2 ^ (d' - 1)) by (apply Z.pow_le_mono_r; lia).
    rewrite Z.pow_add_r in * by lia. lia.
Qed.

Lemma shr_1_digits (r : shr_record) :
  0 <= shr_m r ->
  0 <= shr_m (shr_1 r) /\ Zdigits2 (shr_m (shr_1 r)) = Z.max 0 (Zdigits2 (shr_m r) - 1).
Proof.
  destruct r as [m r s]. cbn [shr_m]. intros Hm.
  destruct m as [|p|p]; [cbn; lia| |lia].
  destruct p; cbn [shr_1 shr_m Zdigits2 digits2_pos]; rewrite ?Pos2Z.inj_succ; lia.
Qed.

Lemma shr_iter_digits (k : nat) (r : shr_record) :
  0 <= shr_m r ->
  0 <= shr_m (Nat.iter k shr_1 r) /\
  Zdigits2 (shr_m (Nat.iter k shr_1 r)) = Z.max 0 (Zdigits2 (shr_m r) - Z.of_nat k).
Proof.
  intros Hm. induction k as [|k [IH1 IH2]].
  - cbn [Nat.iter nat_rect]. pose proof (Zdigits2_nonneg (shr_m r)). lia.
  - change (Nat.iter (S k) shr_1 r) with (shr_1 (Nat.iter k shr_1 r)).
    destruct (shr_1_digits _ IH1) as [H1 H2]. split; [exact H1|].
    rewrite H2, IH2. lia.
Qed.

Lemma shr_record_of_loc_m (m : Z) (l : location) : shr_m (shr_record_of_loc m l) = m.
Proof. destruct l as [|[]]; reflexivity. Qed.

(** What one [shr_fexp] step returns, in terms of digit counts. *)
Lemma shr_fexp_digits (m e : Z) (l : location) :
  0 <= m ->
  let n := Z.max 0 (fexp prec emax (Zdigits2 m + e) - e) in
  0 <= shr_m (fst (shr_fexp prec emax m e l)) /\
  Zdigits2 (shr_m (fst (shr_fexp prec emax m e l))) = Z.max 0 (Zdigits2 m - n) /\
  snd (shr_fexp prec emax m e l) = e + n.
Proof.
  intros Hm n. unfold shr_fexp, shr. subst n.
  destruct (fexp prec emax (Zdigits2 m + e) - e) as [|p|p] eqn:Hn; cbn [fst snd].
  - rewrite shr_record_of_loc_m. pose proof (Zdigits2_nonneg m). lia.
  - rewrite iter_pos_nat.
    destruct (shr_iter_digits (Pos.to_nat p) (shr_record_of_loc m l)) as [H1 H2];
      [rewrite shr_record_of_loc_m; exact Hm|].
    rewrite shr_record_of_loc_m, positive_nat_Z in H2. lia.
  - rewrite shr_record_of_loc_m. pose proof (Zdigits2_nonneg m). lia.
Qed.

Lemma round_nearest_even_cases (m : Z) (l : location) :
  round_nearest_even m l = m \/ round_nearest_even m l = m + 1.
Proof. destruct l as [|[]]; cbn; try destruct (Z.even m); auto. Qed.

(** The two shifts of [binary_round_aux], summarised: the final mantissa is
    non-negative; when it is not zero its exponent is the canonical one. *)
Lemma binary_round_aux_steps (m e : Z) (l : location) :
  0 <= m -> e <= fexp prec emax (Zdigits2 m + e) ->
  let r1 := shr_fexp prec emax m e l in
  let m2 := round_nearest_even (shr_m (fst r1)) (loc_of_shr_record (fst r1)) in
  let r2 := shr_fexp prec emax m2 (snd r1) loc_Exact in
  0 <= shr_m (fst r2) /\
  (0 < shr_m (fst r2) ->
   fexp prec emax (Zdigits2 (shr_m (fst r2)) + snd r2) = snd r2) /\
  (-1074 <= e -> 0 < m -> 0 < shr_m (fst r2)).
Proof.
  intros Hm He r1 m2 r2.
  destruct (shr_fexp_digits m e l Hm) as (A1 & A2 & A3). fold r1 in A1, A2, A3.
  assert (Hm2 : 0 <= m2 /\ Zdigits2 (shr_m (fst r1)) <= Zdigits2 m2 <= Zdigits2 (shr_m (fst r1)) + 1
                /\ shr_m (fst r1) <= m2).
  { unfold m2.
    destruct (round_nearest_even_cases (shr_m (fst r1)) (loc_of_shr_record (fst r1))) as [E|E];
      rewrite E; [lia|].
    pose proof (Zdigits2_succ _ A1). lia. }
  destruct Hm2 as (B1 & B2 & B3).
  destruct (shr_fexp_digits m2 (snd r1) loc_Exact B1) as (C1 & C2 & C3).
  fold r2 in C1, C2, C3.
  pose proof (Zdigits2_nonneg m) as Dm.
  rewrite !fexp_eq in *.
  split; [exact C1|split].
  - intros Hpos. apply Zdigits2_pos in Hpos. lia.
  - intros Hlo Hmpos. apply Zdigits2_pos in Hmpos.
    apply Zdigits2_pos_inv; [exact C1|]. lia.
Qed.

Lemma binary_round_aux_eq (s : bool) (m e : Z) (l : location) :
  binary_round_aux prec emax s m e l =
  let r1 := shr_fexp prec emax m e l in
  let m2 := round_nearest_even (shr_m (fst r1)) (loc_of_shr_record (fst r1)) in
  let r2 := shr_fexp prec emax m2 (snd r1) loc_Exact in
  match shr_m (fst r2) with
  | Z0 => S754_zero s
  | Zpos p => if snd r2 <=? emax - prec then S754_finite s p (snd r2) else S754_infinity s
  | Zneg _ => S754_nan
  end.
Proof.
  unfold binary_round_aux.
  destruct (shr_fexp prec emax m e l) as [r1 e1]. cbn [fst snd].
  destruct (shr_fexp prec emax _ e1 loc_Exact) as [r2 e2]. reflexivity.
Qed.

Lemma binary_round_aux_valid (s : bool) (m e : Z) (l : location) :
  0 <= m -> e <= fexp prec emax (Zdigits2 m + e) ->
  is_number (binary_round_aux prec emax s m e l).
Proof.
  intros Hm He. destruct (binary_round_aux_steps m e l Hm He) as (H1 & H2 & _).
  rewrite binary_round_aux_eq. cbv zeta.
  destruct (shr_m (fst (shr_fexp prec emax _ _ loc_Exact))) as [|p|p] eqn:Hp;
    [reflexivity| |reflexivity].
  destruct (_ <=? emax - prec) eqn:Hle; [|reflexivity].
  unfold is_number. cbn [valid_binary]. unfold bounded, canonical_mantissa.
  rewrite Hle, andb_true_r. apply Z.eqb_eq. apply H2. lia.
Qed.

Lemma binary_round_aux_nonzero (s : bool) (m e : Z) (l : location) :
  0 < m -> e <= fexp prec emax (Zdigits2 m + e) -> -1074 <= e ->
  forall s', binary_round_aux prec emax s m e l <> S754_zero s'.
Proof.
  intros Hm He Hlo s'.
  destruct (binary_round_aux_steps m e l (Z.lt_le_incl _ _ Hm) He) as (_ & _ & H3).
  specialize (H3 Hlo Hm).
  rewrite binary_round_aux_eq. cbv zeta.
  destruct (shr_m (fst (shr_fexp prec emax _ _ loc_Exact))) as [|p|p]; [lia| |discriminate].
  destruct (_ <=? _); discriminate.
Qed.

Lemma digits_pos_iter (d m : positive) :
  Zpos (digits2_pos (Pos.iter xO m d)) = Zpos (digits2_pos m) + Zpos d.
Proof.
  rewrite Pos2Nat.inj_iter, <- (positive_nat_Z d).
  exact (digits_iter_double (Pos.to_nat d) m).
Qed.

(** [shl_align] towards the canonical exponent leaves an input that
    [binary_round_aux] only needs to shift right. *)
Lemma shl_align_fexp (m : positive) (e : Z) :
  let r := shl_align m e (fexp prec emax (Zpos (digits2_pos m) + e)) in
  snd r <= fexp prec emax (Zdigits2 (Zpos (fst r)) + snd r) /\
  (-1074 <= e -> -1074 <= snd r).
Proof.
  unfold shl_align. rewrite fexp_eq.
  destruct (Z.max _ _ - e) as [|d|d] eqn:Hd; cbn [fst snd Zdigits2]; rewrite ?fexp_eq.
  - lia.
  - lia.
  - rewrite digits_pos_iter. lia.
Qed.

Lemma binary_round_valid (s : bool) (m : positive) (e : Z) :
  is_number (binary_round prec emax s m e).
Proof.
  unfold binary_round. pose proof (shl_align_fexp m e) as [H _]. cbv zeta in H.
  destruct (shl_align m e _) as [mz ez]. cbn [fst snd] in H.
  apply binary_round_aux_valid; [lia|exact H].
Qed.

Lemma binary_round_nonzero (s : bool) (m : positive) (e : Z) :
  -1074 <= e -> forall s', binary_round prec emax s m e <> S754_zero s'.
Proof.
  intros Hlo. unfold binary_round. pose proof (shl_align_fexp m e) as [H1 H2].
  cbv zeta in H1, H2. destruct (shl_align m e _) as [mz ez]. cbn [fst snd] in H1, H2.
  apply binary_round_aux_nonzero; [lia|exact H1|auto].
Qed.

Lemma binary_round_opp (s : bool) (m : positive) (e : Z) :
  binary_round prec emax (negb s) m e = SFopp (binary_round prec emax s m e).
Proof.
  unfold binary_round. destruct (shl_align m e _) as [mz ez].
  rewrite !binary_round_aux_eq. cbv zeta.
  destruct (shr_m _); [reflexivity| |reflexivity].
  destruct (_ <=? _); reflexivity.
Qed.

Lemma binary_normalize_valid (z e : Z) (s : bool) :
  is_number (binary_normalize prec emax z e s).
Proof. destruct z; [reflexivity|apply binary_round_valid..]. Qed.

Lemma div_eucl_multiple (a b : Z) : 0 < b -> Z.div_eucl (a * b) b = (a, 0).
Proof.
  intros Hb. pose proof (Z.div_mul a b) as Hq. pose proof (Z.mod_mul a b) as Hr.
  unfold Z.div, Z.modulo in Hq, Hr. destruct (Z.div_eucl (a * b) b) as [q r].
  cbn [fst snd] in Hq, Hr. rewrite Hq, Hr by lia. reflexivity.
Qed.

Lemma valid_exponent (s : bool) (m : positive) (e : Z) :
  is_number (S754_finite s m e) -> -1074 <= e.
Proof. intros H. apply bounded_inv in H. destruct H as [H _]. rewrite fexp_eq in H. lia. Qed.

(** *** The arithmetic of [invert] *)

Lemma sub_zero_one : sub zero one = minus_one.
Proof. reflexivity. Qed.

Lemma sub_one_zero : sub one zero = one.
Proof. reflexivity. Qed.

Lemma div_core_minus_one (m : positive) (e : Z) :
  bounded prec emax m e = true ->
  exists k : nat,
    SFdiv_core_binary prec emax (Zpos m) e 4503599627370496 (-52)
    = (Zpos (Nat.iter k xO m), e - Z.of_nat k, loc_Exact).
Proof.
  intros Hb. pose proof (bounded_inv m e Hb) as [Hc He]. rewrite fexp_eq in Hc.
  unfold SFdiv_core_binary. cbn [Zdigits2].
  change (Zpos (digits2_pos 4503599627370496)) with 53. rewrite fexp_eq.
  set (F := Z.min _ _).
  assert (HF : F = e \/ F = e - 1) by (unfold F; lia).
  destruct HF as [HF|HF]; rewrite HF.
  - exists 0%nat. replace (e - -52 - e) with 52 by lia.
    rewrite Z.shiftl_mul_pow2 by lia.
    change (2 ^ 52) with 4503599627370496.
    rewrite div_eucl_multiple by lia. cbn [Nat.iter nat_rect Z.of_nat].
    rewrite Z.sub_0_r. reflexivity.
  - exists 1%nat. replace (e - -52 - (e - 1)) with 53 by lia.
    rewrite Z.shiftl_mul_pow2 by lia.
    replace (Zpos m * 2 ^ 53) with (Zpos m~0 * 4503599627370496) by lia.
    rewrite div_eucl_multiple by lia. reflexivity.
Qed.

Lemma div_minus_one (s : bool) (m : positive) (e : Z) :
  bounded prec emax m e = true ->
  div (S754_finite s m e) minus_one = S754_finite (negb s) m e.
Proof.
  intros Hb. unfold div, minus_one. cbn [SFdiv].
  destruct (div_core_minus_one m e Hb) as [k Hk]. rewrite Hk.
  rewrite xorb_true_r. now apply binary_round_aux_exact.
Qed.

(** [invert] in terms of the first subtraction of [scale]. *)
Lemma invert_eq (x : number) :
  invert x = add (div (mul (sub x one) one) minus_one) zero.
Proof.
  unfold invert, scale. change (strict_eq one zero) with false. cbv iota.
  now rewrite sub_one_zero, sub_zero_one.
Qed.

Lemma invert_chain (y : number) :
  is_number y -> add (div (mul y one) minus_one) zero = negate_to_pzero y.
Proof.
  intros Hy. destruct y as [s|s| |s m e].
  - destruct s; reflexivity.
  - destruct s; reflexivity.
  - reflexivity.
  - rewrite mul_one_r by exact Hy. rewrite div_minus_one by exact Hy. reflexivity.
Qed.

Lemma sub_valid (x y : number) : is_number x -> is_number y -> is_number (sub x y).
Proof.
  intros Hx Hy. destruct x as [sx|sx| |sx mx ex], y as [sy|sy| |sy my ey];
    try (destruct sx, sy; first [reflexivity|assumption]);
    try reflexivity; try assumption.
  unfold sub. cbn [SFsub]. apply binary_normalize_valid.
Qed.

Lemma binary_normalize_opp (z e : Z) :
  -1074 <= e ->
  binary_normalize prec emax (- z) e false
  = negate_to_pzero (binary_normalize prec emax z e false).
Proof.
  intros He. destruct z as [|p|p]; cbn [Z.opp binary_normalize]; [reflexivity| |].
  - change true with (negb false). rewrite binary_round_opp.
    pose proof (binary_round_nonzero false p e He) as Hnz.
    destruct (binary_round prec emax false p e); try reflexivity.
    exfalso. eapply Hnz. reflexivity.
  - pose proof (binary_round_nonzero true p e He) as Hnz.
    change false with (negb true) at 1. rewrite binary_round_opp.
    destruct (binary_round prec emax true p e); try reflexivity.
    exfalso. eapply Hnz. reflexivity.
Qed.

(** Swapping the operands of a subtraction negates the difference. *)
Lemma sub_swap_one (x : number) :
  is_number x -> sub one x = negate_to_pzero (sub x one).
Proof.
  intros Hx. destruct x as [s|s| |s m e]; try (destruct s; reflexivity); try reflexivity.
  pose proof (valid_exponent s m e Hx) as He.
  unfold sub, one. cbn [SFsub]. rewrite (Z.min_comm (-52) e).
  set (ez := Z.min e (-52)).
  set (a := cond_Zopp s _). set (b := cond_Zopp false _).
  replace (b - a) with (- (a - b)) by lia.
  apply binary_normalize_opp. unfold ez. lia.
Qed.

End Rounding.

(** ** The moving window of [Lowpass] *)

Section Window.
Import Js Smooth.
Local Open Scope Z_scope.

Lemma feed_app (self : Lowpass) (xs ys : list number) :
  feed self (xs ++ ys) = feed (feed self xs) ys.
Proof. revert self. induction xs as [|x xs IH]; intros self; cbn; [reflexivity|apply IH]. Qed.

Lemma update_factor (self : Lowpass) (value : number) :
  factor (snd (update self value)) = factor self.
Proof. reflexivity. Qed.

Lemma feed_factor (self : Lowpass) (samples : list number) :
  factor (feed self samples) = factor self.
Proof.
  revert self. induction samples as [|x xs IH]; intros self; cbn [feed]; [reflexivity|].
  rewrite IH. apply update_factor.
Qed.

Lemma most_recent_all (n : nat) (xs : list number) :
  (length xs <= n)%nat -> most_recent n xs = xs.
Proof. intros H. unfold most_recent. replace (length xs - n)%nat with 0%nat by lia. reflexivity. Qed.

Lemma most_recent_length (n : nat) (xs : list number) :
  length (most_recent n xs) = Nat.min (length xs) n.
Proof. unfold most_recent. rewrite length_skipn. lia. Qed.

Lemma most_recent_snoc (n : nat) (xs : list number) (x : number) :
  (n <= length xs)%nat ->
  skipn 1 (most_recent n xs ++ [x]) = most_recent n (xs ++ [x]).
Proof.
  intros H. unfold most_recent. rewrite length_app. cbn [length].
  destruct n as [|n].
  - rewrite Nat.sub_0_r, skipn_all. cbn [app skipn].
    rewrite skipn_all2; [reflexivity|rewrite length_app; cbn; lia].
  - rewrite !skipn_app, skipn_skipn, !length_skipn.
    replace (1 - (length xs - (length xs - S n)))%nat with 0%nat by lia.
    replace (length xs + 1 - S n - length xs)%nat with 0%nat by lia.
    replace (1 + (length xs - S n))%nat with (length xs + 1 - S n)%nat by lia.
    reflexivity.
Qed.

(** The window invariant: after the samples [xs], the history is the
    [min (length xs) factor] latest of them. *)
Lemma feed_history (k : Z) (xs : list number) :
  0 < k ->
  history (feed (constructor (Some k)) xs)
  = most_recent (Nat.min (length xs) (Z.to_nat k)) xs.
Proof.
  intros Hk. induction xs as [|x xs IH] using rev_ind; [reflexivity|].
  rewrite feed_app. cbn [feed]. unfold update at 1. cbn [snd history].
  rewrite feed_factor, IH.
  assert (Hf : factor (constructor (Some k)) = k).
  { cbn. destruct (Z.eqb_spec k 0); [lia|reflexivity]. }
  rewrite Hf, !length_app, most_recent_length. cbn [length].
  destruct (Z.gtb_spec (Z.of_nat (Nat.min (length xs) (Nat.min (length xs) (Z.to_nat k)) + 1)) k) as [Hgt|Hle].
  - unfold splice_front. rewrite !length_app, most_recent_length. cbn [length].
    replace (Z.to_nat _) with 1%nat by lia.
    replace (Nat.min (length xs) (Z.to_nat k)) with (Z.to_nat k) by lia.
    replace (Nat.min (length xs + 1) (Z.to_nat k)) with (Z.to_nat k) by lia.
    apply most_recent_snoc. lia.
  - replace (Nat.min (length xs) (Z.to_nat k)) with (length xs) by lia.
    replace (Nat.min (length xs + 1) (Z.to_nat k)) with (length xs + 1)%nat by lia.
    rewrite !most_recent_all; [reflexivity|rewrite length_app; cbn; lia|lia].
Qed.

End Window.

(** * Further properties of the numeric transforms *)

Section Transforms.
Import Js.
Local Open Scope Z_scope.

(** ** Comparisons, [Math.max] and [Math.min] *)

Ltac compare_all :=
  cbn [SFcompare]; intros;
  repeat match goal with s : bool |- _ => destruct s end;
  try discriminate; try reflexivity;
  rewrite ?compare_cont_Eq in *.

Lemma SFcompare_refl (x : number) : x <> nan -> SFcompare x x = Some Eq.
Proof.
  destruct x as [s|s| |s m e]; intros H; try (destruct s; reflexivity).
  - now elim H.
  - cbn [SFcompare]. rewrite compare_cont_Eq, Z.compare_refl, Pos.compare_refl.
    destruct s; reflexivity.
Qed.

Lemma SFcompare_swap (a b : number) (c : comparison) :
  SFcompare a b = Some c -> SFcompare b a = Some (CompOpp c).
Proof.
  destruct c; intros H.
  - destruct a as [sa|sa| |sa ma ea], b as [sb|sb| |sb mb eb]; revert H; compare_all.
    all: rewrite (Z.compare_antisym ea eb), (Pos.compare_antisym ma mb);
      destruct (ea ?= eb), (ma ?= mb)%positive; try discriminate; reflexivity.
  - now apply SFcompare_Lt_Gt.
  - now apply SFcompare_Gt_Lt.
Qed.

Lemma SFcompare_None (a b : number) :
  SFcompare a b = None <-> a = nan \/ b = nan.
Proof.
  unfold nan. split.
  - destruct a as [sa|sa| |sa ma ea], b as [sb|sb| |sb mb eb]; cbn; auto; discriminate.
  - intros [->| ->]; [reflexivity|]. destruct a; reflexivity.
Qed.

(** Values that compare equal differ at most in the sign of a zero. *)
Lemma SFcompare_Eq_inv (a b : number) :
  SFcompare a b = Some Eq -> a = b \/ (exists s t, a = S754_zero s /\ b = S754_zero t).
Proof.
  destruct a as [sa|sa| |sa ma ea], b as [sb|sb| |sb mb eb]; compare_all; eauto.
  all: destruct (Z.compare_spec ea eb); try discriminate;
       destruct (Pos.compare_spec ma mb); try discriminate; subst; auto.
Qed.

Lemma SFcompare_zero_l (s t : bool) (c : number) :
  SFcompare (S754_zero s) c = SFcompare (S754_zero t) c.
Proof. destruct c; reflexivity. Qed.

Lemma SFcompare_zero_r (s t : bool) (c : number) :
  SFcompare c (S754_zero s) = SFcompare c (S754_zero t).
Proof. destruct c; reflexivity. Qed.

Lemma SFcompare_Eq_l (a b c : number) :
  SFcompare a b = Some Eq -> SFcompare a c = SFcompare b c.
Proof.
  intros H. destruct (SFcompare_Eq_inv a b H) as [->|(s & t & -> & ->)];
    [reflexivity|apply SFcompare_zero_l].
Qed.

Lemma SFcompare_Eq_r (a b c : number) :
  SFcompare a b = Some Eq -> SFcompare c a = SFcompare c b.
Proof.
  intros H. destruct (SFcompare_Eq_inv a b H) as [->|(s & t & -> & ->)];
    [reflexivity|apply SFcompare_zero_r].
Qed.

Lemma Math_max_self (x : number) : Math_max x x = x.
Proof.
  unfold Math_max. destruct x as [s|s| |s m e]; try (destruct s; reflexivity).
  - reflexivity.
  - rewrite SFcompare_refl by discriminate. reflexivity.
Qed.

Lemma Math_min_self (x : number) : Math_min x x = x.
Proof.
  unfold Math_min. destruct x as [s|s| |s m e]; try (destruct s; reflexivity).
  - reflexivity.
  - rewrite SFcompare_refl by discriminate. reflexivity.
Qed.

(** [Math.max] and [Math.min] return one of their arguments, unless one of
    them is [NaN]. *)
Lemma Math_max_cases (a b : number) :
  a <> nan -> b <> nan ->
  (Math_max a b = a /\ (SFcompare a b = Some Gt \/ SFcompare a b = Some Eq)) \/
  (Math_max a b = b /\ (SFcompare a b = Some Lt \/ SFcompare a b = Some Eq)).
Proof.
  intros Ha Hb. unfold Math_max.
  destruct (SFcompare a b) as [[]|] eqn:E.
  - destruct a as [[]| | |], b as [[]| | |]; auto.
  - auto.
  - auto.
  - apply SFcompare_None in E. tauto.
Qed.

Lemma Math_min_cases (a b : number) :
  a <> nan -> b <> nan ->
  (Math_min a b = a /\ (SFcompare a b = Some Lt \/ SFcompare a b = Some Eq)) \/
  (Math_min a b = b /\ (SFcompare a b = Some Gt \/ SFcompare a b = Some Eq)).
Proof.
  intros Ha Hb. unfold Math_min.
  destruct (SFcompare a b) as [[]|] eqn:E.
  - destruct a as [[]| | |], b as [[]| | |]; auto.
  - auto.
  - auto.
  - apply SFcompare_None in E. tauto.
Qed.

Lemma Math_max_nan (a b : number) : Math_max a b = nan <-> a = nan \/ b = nan.
Proof.
  split.
  - intros H. destruct (SFcompare a b) as [c|] eqn:E; [|now apply SFcompare_None].
    unfold Math_max in H. rewrite E in H.
    destruct c; [destruct a as [[]| | |], b as [[]| | |]| |]; auto; discriminate.
  - intros H. apply SFcompare_None in H. unfold Math_max. now rewrite H.
Qed.

Lemma Math_min_nan (a b : number) : Math_min a b = nan <-> a = nan \/ b = nan.
Proof.
  split.
  - intros H. destruct (SFcompare a b) as [c|] eqn:E; [|now apply SFcompare_None].
    unfold Math_min in H. rewrite E in H.
    destruct c; [destruct a as [[]| | |], b as [[]| | |]| |]; auto; discriminate.
  - intros H. apply SFcompare_None in H. unfold Math_min. now rewrite H.
Qed.

Lemma le_SFcompare (a b : number) :
  le a b = true <-> SFcompare a b = Some Lt \/ SFcompare a b = Some Eq.
Proof.
  unfold le, SFleb. destruct (SFcompare a b) as [[]|]; split; intros H;
    try reflexivity; try discriminate; auto; destruct H; discriminate.
Qed.

Lemma strict_eq_SFcompare (a b : number) :
  strict_eq a b = true <-> SFcompare a b = Some Eq.
Proof.
  unfold strict_eq, SFeqb. destruct (SFcompare a b) as [[]|]; split; congruence.
Qed.

Lemma number_le_refl (x : number) : x <> nan -> le x x = true.
Proof. intros H. apply le_SFcompare. right. now apply SFcompare_refl. Qed.

Lemma number_le_swap (a b : number) :
  SFcompare a b = Some Gt \/ SFcompare a b = Some Eq -> le b a = true.
Proof.
  intros [H|H]; apply SFcompare_swap in H; apply le_SFcompare; cbn in H; auto.
Qed.

(** X1: for limits [min <= max] and a value other than [NaN], the result of
    [clip] lies between the limits, both included. *)
Theorem clip_within_limits (value min max : number) :
  le min max = true -> value <> nan ->
  le min (clip value min max) = true /\ le (clip value min max) max = true.
Proof.
  intros Hle Hv.
  assert (Hmin : min <> nan /\ max <> nan).
  { apply le_SFcompare in Hle. split; intros ->; destruct Hle as [H|H];
      try discriminate; destruct min; discriminate. }
  destruct Hmin as [Hmin Hmax].
  assert (Hm : Math_max value min <> nan) by (rewrite Math_max_nan; tauto).
  assert (Hlow : le min (Math_max value min) = true).
  { destruct (Math_max_cases value min Hv Hmin) as [[-> H]|[-> H]];
      [now apply number_le_swap|now apply number_le_refl]. }
  unfold clip.
  destruct (Math_min_cases (Math_max value min) max Hm Hmax) as [[-> H]|[-> H]].
  - split; [exact Hlow|now apply le_SFcompare].
  - split; [exact Hle|now apply number_le_refl].
Qed.

Lemma clip_within_limits_witness :
  le (of_Z 0) (of_Z 10) = true /\ of_Z 11 <> nan /\
  le (of_Z 0) (clip (of_Z 11) (of_Z 0) (of_Z 10)) = true /\
  le (clip (of_Z 11) (of_Z 0) (of_Z 10)) (of_Z 10) = true.
Proof.
  assert (H1 : le (of_Z 0) (of_Z 10) = true) by (vm_compute; reflexivity).
  assert (H2 : of_Z 11 <> nan) by (vm_compute; discriminate).
  exact (conj H1 (conj H2 (clip_within_limits (of_Z 11) (of_Z 0) (of_Z 10) H1 H2))).
Defined.

(** X4: [clip] returns [NaN] exactly when one of its three arguments is [NaN]. *)
Theorem clip_nan (value min max : number) :
  clip value min max = nan <-> value = nan \/ min = nan \/ max = nan.
Proof. unfold clip. rewrite Math_min_nan, Math_max_nan. tauto. Qed.

Lemma Math_max_idem_r (a b : number) : Math_max (Math_max a b) b = Math_max a b.
Proof.
  destruct (SFcompare a b) as [c|] eqn:E.
  - assert (Ha : a <> nan) by (intros ->; discriminate).
    assert (Hb : b <> nan) by (intros ->; destruct a; discriminate).
    destruct (Math_max_cases a b Ha Hb) as [[H _]|[H _]]; rewrite H.
    + exact H.
    + apply Math_max_self.
  - unfold Math_max at 2 3. rewrite E. reflexivity.
Qed.

Lemma Math_min_max_absorb (mx mn : number) :
  mx <> nan -> mn <> nan -> Math_min (Math_max mx mn) mx = mx.
Proof.
  intros Hx Hn. unfold Math_max.
  destruct (SFcompare mx mn) as [[]|] eqn:E.
  - destruct (SFcompare_Eq_inv mx mn E) as [<-|(s & t & -> & ->)].
    + destruct mx as [[]| | |]; apply Math_min_self.
    + destruct s, t; reflexivity.
  - apply SFcompare_Lt_Gt in E. unfold Math_min. now rewrite E.
  - apply Math_min_self.
  - apply SFcompare_None in E. tauto.
Qed.

(** X3: clipping a clipped value with the same limits changes nothing, whatever
    the value and the limits are. *)
Theorem clip_idempotent (value min max : number) :
  clip (clip value min max) min max = clip value min max.
Proof.
  unfold clip. set (m := Math_max value min).
  destruct (SFcompare m max) as [c|] eqn:E.
  - assert (Hm : m <> nan) by (intros H; rewrite H in E; discriminate).
    assert (Hmax : max <> nan) by (intros ->; destruct m; discriminate).
    assert (Hmin : min <> nan).
    { intros ->. apply Hm. apply Math_max_nan. now right. }
    destruct (Math_min_cases m max Hm Hmax) as [[H _]|[H _]]; rewrite H.
    + unfold m. rewrite Math_max_idem_r. exact H.
    + now apply Math_min_max_absorb.
  - unfold Math_min at 2 3. rewrite E. reflexivity.
Qed.

(** X2: a value with [min <= value <= max] is returned as it is: the result is
    [===] to it, and identical to it when the value is strictly inside. *)
Theorem clip_in_range (value min max : number) :
  le min value = true -> le value max = true ->
  strict_eq (clip value min max) value = true /\
  (lt min value = true -> lt value max = true -> clip value min max = value).
Proof.
  intros H1 H2. split.
  - apply strict_eq_SFcompare.
    assert (Hv : value <> nan) by (intros ->; destruct min; discriminate).
    assert (Hmin : min <> nan) by (intros ->; discriminate).
    assert (Hmax : max <> nan) by (intros ->; destruct value; discriminate).
    assert (Em : SFcompare (Math_max value min) value = Some Eq).
    { destruct (Math_max_cases value min Hv Hmin) as [[-> _]|[-> H]].
      - now apply SFcompare_refl.
      - destruct H as [H|H].
        + exfalso. apply le_SFcompare in H1.
          destruct H1 as [H1|H1]; apply SFcompare_swap in H1; cbn in H1; congruence.
        + apply SFcompare_swap in H. exact H. }
    assert (Hm : Math_max value min <> nan) by (rewrite Math_max_nan; tauto).
    unfold clip.
    destruct (Math_min_cases (Math_max value min) max Hm Hmax) as [[-> _]|[-> H]].
    + exact Em.
    + rewrite (SFcompare_Eq_l _ _ max Em) in H.
      apply le_SFcompare in H2. destruct H2 as [H2|H2], H as [H|H]; try congruence.
      apply SFcompare_swap in H. exact H.
  - intros L1 L2. apply lt_SFcompare in L1, L2. unfold clip, Math_max.
    rewrite (SFcompare_Lt_Gt _ _ L1). unfold Math_min. now rewrite L2.
Qed.

Lemma clip_in_range_witness :
  le (of_Z 0) (of_Z 5) = true /\ le (of_Z 5) (of_Z 10) = true /\
  strict_eq (clip (of_Z 5) (of_Z 0) (of_Z 10)) (of_Z 5) = true /\
  (lt (of_Z 0) (of_Z 5) = true -> lt (of_Z 5) (of_Z 10) = true ->
   clip (of_Z 5) (of_Z 0) (of_Z 10) = of_Z 5).
Proof.
  assert (H1 : le (of_Z 0) (of_Z 5) = true) by (vm_compute; reflexivity).
  assert (H2 : le (of_Z 5) (of_Z 10) = true) by (vm_compute; reflexivity).
  exact (conj H1 (conj H2 (clip_in_range (of_Z 5) (of_Z 0) (of_Z 10) H1 H2))).
Defined.

(** ** Exact operations *)

Lemma mul_one_r_any (x : number) : is_number x -> mul x one = x.
Proof.
  intros Hx. destruct x as [[]|[]| |s m e]; try reflexivity.
  now apply mul_one_r.
Qed.

Lemma div_one_r (x : number) : is_number x -> div x one = x.
Proof.
  intros Hx. destruct x as [[]|[]| |s m e]; try reflexivity.
  unfold div, one. cbn [SFdiv].
  destruct (div_core_minus_one m e Hx) as [k Hk]. rewrite Hk.
  rewrite xorb_false_r. now apply binary_round_aux_exact.
Qed.

Lemma div_self (s : bool) (m : positive) (e : Z) :
  div (S754_finite s m e) (S754_finite s m e) = one.
Proof.
  unfold div. cbn [SFdiv]. unfold SFdiv_core_binary.
  replace (Zdigits2 (Zpos m) + e - (Zdigits2 (Zpos m) + e)) with 0 by lia.
  rewrite Z.sub_diag. change (Z.min (fexp prec emax 0) 0) with (-53).
  change (0 - -53) with 53. cbv iota.
  rewrite Z.shiftl_mul_pow2 by lia.
  change (2 ^ 53) with 9007199254740992.
  rewrite (Z.mul_comm (Zpos m)), div_eucl_multiple by lia.
  rewrite xorb_nilpotent.
  replace (new_location (Zpos m) 0) with loc_Exact
    by (unfold new_location; destruct (Z.even (Zpos m)); reflexivity).
  reflexivity.
Qed.

Lemma sub_self (x : number) : finite x = true -> sub x x = zero.
Proof.
  destruct x as [[]|[]| |s m e]; try discriminate; try reflexivity.
  intros _. unfold sub. cbn [SFsub]. rewrite Z.sub_diag. reflexivity.
Qed.

Lemma Zpos_iter_double (k : nat) (m : positive) :
  Zpos (Nat.iter k xO m) = Zpos m * 2 ^ Z.of_nat k.
Proof.
  induction k as [|k IH]; [cbn; lia|].
  change (Nat.iter (S k) xO m) with (xO (Nat.iter k xO m)).
  rewrite Pos2Z.inj_xO, IH, Nat2Z.inj_succ, Z.pow_succ_r by lia. lia.
Qed.

(** The mantissa [shl_align] returns, when the target exponent is not above
    the exponent given. *)
Lemma shl_align_value (m : positive) (e e' : Z) :
  e' <= e -> Zpos (fst (shl_align m e e')) = Zpos m * 2 ^ (e - e').
Proof.
  intros H. unfold shl_align. destruct (e' - e) as [|d|d] eqn:E; try lia.
  - replace (e - e') with 0 by lia. cbn [fst]. lia.
  - cbn [fst]. rewrite Pos2Nat.inj_iter.
    change (Zpos (Nat.iter (Pos.to_nat d) xO m) = Zpos m * 2 ^ (e - e')).
    rewrite Zpos_iter_double, positive_nat_Z. f_equal. f_equal. lia.
Qed.

Lemma digits_unique (n d d' : Z) :
  0 < d -> 0 < d' -> 2 ^ (d - 1) <= n < 2 ^ d -> 2 ^ (d' - 1) <= n < 2 ^ d' -> d = d'.
Proof.
  intros Hd Hd' H H'.
  destruct (Z.lt_trichotomy d d') as [L|[L|L]]; [exfalso|exact L|exfalso].
  - assert (2 ^ d <= 2 ^ (d' - 1)) by (apply Z.pow_le_mono_r; lia). lia.
  - assert (2 ^ d' <= 2 ^ (d - 1)) by (apply Z.pow_le_mono_r; lia). lia.
Qed.

(** Two binary64 values with the same real value have the same mantissa and
    exponent. *)
Lemma canonical_unique (m1 m2 : positive) (e1 e2 : Z) :
  bounded prec emax m1 e1 = true -> bounded prec emax m2 e2 = true ->
  e1 <= e2 -> Zpos m1 = Zpos m2 * 2 ^ (e2 - e1) -> e1 = e2 /\ m1 = m2.
Proof.
  intros B1 B2 Hle Hv.
  destruct (bounded_inv _ _ B1) as [C1 _]. destruct (bounded_inv _ _ B2) as [C2 _].
  rewrite fexp_eq in C1, C2.
  pose proof (digits2_pos_bounds m1) as D1. pose proof (digits2_pos_bounds m2) as D2.
  set (d1 := Zpos (digits2_pos m1)) in *. set (d2 := Zpos (digits2_pos m2)) in *.
  assert (Hd1 : 0 < d1) by (unfold d1; lia). assert (Hd2 : 0 < d2) by (unfold d2; lia).
  assert (Hd : d1 = d2 + (e2 - e1)).
  { apply (digits_unique (Zpos m1)); try lia.
    rewrite Hv. replace (d2 + (e2 - e1) - 1) with ((d2 - 1) + (e2 - e1)) by lia.
    rewrite !Z.pow_add_r by lia.
    assert (0 < 2 ^ (e2 - e1)) by (apply Z.pow_pos_nonneg; lia). nia. }
  assert (e1 = e2) by lia. subst e2. split; [reflexivity|].
  rewrite Z.sub_diag in Hv. lia.
Qed.

(** The difference of two different finite numbers is not a zero. *)
Lemma sub_nonzero (x y : number) :
  is_number x -> is_number y -> finite x = true -> finite y = true ->
  strict_eq x y = false -> forall s, sub x y <> S754_zero s.
Proof.
  intros Hx Hy Fx Fy Hne s0.
  destruct x as [sx|sx| |sx mx ex], y as [sy|sy| |sy my ey]; try discriminate.
  pose proof (valid_exponent _ _ _ Hx) as Ex. pose proof (valid_exponent _ _ _ Hy) as Ey.
    unfold sub. cbn [SFsub]. set (ez := Z.min ex ey).
    set (A := cond_Zopp sx _). set (B := cond_Zopp sy _).
    destruct (Z.eq_dec (A - B) 0) as [E|E].
    + exfalso. unfold A, B in E.
      rewrite !shl_align_value in E by (unfold ez; lia).
      assert (P1 : 0 < Zpos mx * 2 ^ (ex - ez))
        by (apply Z.mul_pos_pos; [lia|apply Z.pow_pos_nonneg; unfold ez; lia]).
      assert (P2 : 0 < Zpos my * 2 ^ (ey - ez))
        by (apply Z.mul_pos_pos; [lia|apply Z.pow_pos_nonneg; unfold ez; lia]).
      assert (Hs : sx = sy) by (destruct sx, sy; cbn [cond_Zopp] in E; try reflexivity; lia).
      subst sy.
      assert (Hv : Zpos mx * 2 ^ (ex - ez) = Zpos my * 2 ^ (ey - ez))
        by (destruct sx; cbn [cond_Zopp] in E; lia).
      assert (Heq : ex = ey /\ mx = my).
      { destruct (Z.le_ge_cases ex ey) as [L|L].
        - apply canonical_unique; try assumption.
          unfold ez in Hv. rewrite Z.min_l in Hv by lia.
          rewrite Z.sub_diag in Hv. lia.
        - assert (ey = ex /\ my = mx) as [-> ->]; [|auto].
          apply canonical_unique; try assumption; try lia.
          unfold ez in Hv. rewrite Z.min_r in Hv by lia.
          rewrite Z.sub_diag in Hv. lia. }
      destruct Heq as [-> ->].
      unfold strict_eq, SFeqb in Hne. cbn [SFcompare] in Hne.
      rewrite compare_cont_Eq, Z.compare_refl, Pos.compare_refl in Hne.
      destruct sx; discriminate.
    + destruct (A - B) as [|p|p] eqn:EAB; [lia| |]; cbn [binary_normalize];
        apply binary_round_nonzero; unfold ez; lia.
Qed.

Lemma binary_round_aux_not_nan (s : bool) (m e : Z) (l : location) :
  0 <= m -> binary_round_aux prec emax s m e l <> nan.
Proof.
  intros Hm. unfold nan. rewrite binary_round_aux_eq. cbv zeta.
  destruct (shr_fexp_digits m e l Hm) as (A1 & _ & _).
  set (r1 := shr_fexp prec emax m e l) in *.
  set (m2 := round_nearest_even _ _).
  assert (B1 : 0 <= m2).
  { unfold m2. destruct (round_nearest_even_cases (shr_m (fst r1)) (loc_of_shr_record (fst r1))) as [E|E];
      rewrite E; lia. }
  destruct (shr_fexp_digits m2 (snd r1) loc_Exact B1) as (C1 & _ & _).
  destruct (shr_m (fst (shr_fexp prec emax m2 (snd r1) loc_Exact))) as [|p|p];
    [discriminate| |lia].
  destruct (_ <=? _); discriminate.
Qed.

Lemma binary_normalize_not_nan (z e : Z) (s : bool) :
  binary_normalize prec emax z e s <> nan.
Proof.
  destruct z as [|p|p]; cbn [binary_normalize]; [unfold nan; discriminate| |];
    unfold binary_round; destruct (shl_align p e _) as [mz ez];
    apply binary_round_aux_not_nan; lia.
Qed.

Lemma sub_finite_not_nan (x y : number) :
  finite x = true -> finite y = true -> sub x y <> nan.
Proof.
  destruct x as [[]|[]| |sx mx ex], y as [[]|[]| |sy my ey]; try discriminate.
  intros _ _. unfold sub. cbn [SFsub]. apply binary_normalize_not_nan.
Qed.

Lemma add_finite_not_nan (x y : number) :
  finite x = true -> finite y = true -> add x y <> nan.
Proof.
  destruct x as [[]|[]| |sx mx ex], y as [[]|[]| |sy my ey]; try discriminate.
  intros _ _. unfold add. cbn [SFadd]. apply binary_normalize_not_nan.
Qed.

Lemma strict_eq_sym (a b : number) : strict_eq a b = strict_eq b a.
Proof.
  unfold strict_eq, SFeqb. destruct (SFcompare a b) as [c|] eqn:E.
  - apply SFcompare_swap in E. rewrite E. destruct c; reflexivity.
  - apply SFcompare_None in E. assert (E' : SFcompare b a = None) by (apply SFcompare_None; tauto).
    now rewrite E'.
Qed.

Lemma div_zero_l (s : bool) (d : number) :
  d <> nan -> (forall t, d <> S754_zero t) ->
  exists t, div (S754_zero s) d = S754_zero t.
Proof.
  intros Hn Hz. destruct d as [t|t| |t m e].
  - now elim (Hz t).
  - eexists. reflexivity.
  - now elim Hn.
  - eexists. reflexivity.
Qed.

Lemma mul_zero_l (s : bool) (d : number) :
  finite d = true -> exists t, mul (S754_zero s) d = S754_zero t.
Proof. destruct d; try discriminate; intros _; eexists; reflexivity. Qed.

Lemma add_zero_l (s : bool) (x : number) :
  finite x = true ->
  strict_eq (add (S754_zero s) x) x = true /\
  ((forall t, x <> S754_zero t) -> add (S754_zero s) x = x).
Proof.
  destruct x as [t|t| |t m e]; try discriminate; intros _.
  - split; [destruct s, t; reflexivity|]. intros H. now elim (H t).
  - split; [|reflexivity]. cbn [add SFadd]. apply strict_eq_SFcompare, SFcompare_refl. discriminate.
Qed.

(** X5: for finite limits [min <> max], [normalize] sends [min] to a zero
    and, when [max - min] does not overflow, [max] to [1] exactly. *)
Theorem normalize_endpoints (min max : number) :
  is_number min -> is_number max -> finite min = true -> finite max = true ->
  strict_eq min max = false ->
  strict_eq (normalize min min max) zero = true /\
  (finite (sub max min) = true -> normalize max min max = one).
Proof.
  intros Vn Vx Fn Fx Hne.
  assert (Hd : forall t, sub max min <> S754_zero t).
  { apply sub_nonzero; try assumption. now rewrite strict_eq_sym. }
  unfold normalize. split.
  - rewrite sub_self by exact Fn. change zero with (S754_zero false).
    destruct (div_zero_l false (sub max min)) as [t ->]; [|exact Hd|now destruct t].
    now apply sub_finite_not_nan.
  - intros Fd. destruct (sub max min) as [t|t| |t m e]; try discriminate.
    + now elim (Hd t).
    + apply div_self.
Qed.

Lemma normalize_endpoints_witness :
  strict_eq (normalize (of_Z 2) (of_Z 2) (of_Z 4)) zero = true /\
  (finite (sub (of_Z 4) (of_Z 2)) = true -> normalize (of_Z 4) (of_Z 2) (of_Z 4) = one).
Proof.
  apply (normalize_endpoints (of_Z 2) (of_Z 4)); reflexivity.
Defined.

(** X6: with finite limits [min === max] there is no guard: the result of
    [normalize] is [NaN] or an infinity for every value. *)
Theorem normalize_degenerate (value min max : number) :
  finite min = true -> finite max = true -> strict_eq min max = true ->
  finite (normalize value min max) = false.
Proof.
  intros Fn Fx He. apply strict_eq_SFcompare in He.
  assert (Hz : exists t, sub max min = S754_zero t).
  { destruct (SFcompare_Eq_inv _ _ He) as [<-|(s & t & -> & ->)].
    - rewrite sub_self by exact Fn. now exists false.
    - destruct s, t; eexists; reflexivity. }
  destruct Hz as [t Hz]. unfold normalize. rewrite Hz.
  destruct (sub value min) as [[]|[]| |u m e], t; reflexivity.
Qed.

Lemma normalize_degenerate_witness :
  finite (normalize (of_Z 7) (of_Z 5) (of_Z 5)) = false.
Proof.
  apply (normalize_degenerate (of_Z 7) (of_Z 5) (of_Z 5)); reflexivity.
Defined.

(** X7: for a finite input range with [inMin <> inMax] and an output range
    whose width does not overflow, [scale] sends [inMin] to [outMin]. *)
Theorem scale_lower_endpoint (inMin inMax outMin outMax : number) :
  is_number inMin -> is_number inMax ->
  finite inMin = true -> finite inMax = true -> finite outMin = true ->
  strict_eq inMin inMax = false -> finite (sub outMax outMin) = true ->
  strict_eq (scale inMin inMin inMax outMin outMax) outMin = true /\
  ((forall t, outMin <> S754_zero t) ->
   scale inMin inMin inMax outMin outMax = outMin).
Proof.
  intros Vn Vx Fn Fx Fo Hne Fd. unfold scale. rewrite Hne.
  rewrite sub_self by exact Fn. change zero with (S754_zero false).
  destruct (mul_zero_l false (sub outMax outMin) Fd) as [t ->].
  destruct (div_zero_l t (sub inMax inMin)) as [t' ->].
  - now apply sub_finite_not_nan.
  - apply sub_nonzero; try assumption. now rewrite strict_eq_sym.
  - now apply add_zero_l.
Qed.

Lemma scale_lower_endpoint_witness :
  strict_eq (scale (of_Z 2) (of_Z 2) (of_Z 4) (of_Z 10) (of_Z 20)) (of_Z 10) = true /\
  ((forall t, of_Z 10 <> S754_zero t) ->
   scale (of_Z 2) (of_Z 2) (of_Z 4) (of_Z 10) (of_Z 20) = of_Z 10).
Proof.
  apply (scale_lower_endpoint (of_Z 2) (of_Z 4) (of_Z 10) (of_Z 20)); reflexivity.
Defined.

(** X8: towards the range [[0, 1]] and with [a <> b], [scale] computes
    [normalize(x, a, b) + 0]: the multiplication by [1 - 0] is exact. *)
Theorem scale_to_unit_range (x a b : number) :
  is_number x -> is_number a -> strict_eq a b = false ->
  scale x a b zero one = add (normalize x a b) zero.
Proof.
  intros Vx Va Hne. unfold scale, normalize. rewrite Hne, sub_one_zero.
  rewrite mul_one_r_any by now apply sub_valid. reflexivity.
Qed.

Lemma scale_to_unit_range_witness :
  scale (of_Z 3) (of_Z 2) (of_Z 4) zero one = add (normalize (of_Z 3) (of_Z 2) (of_Z 4)) zero.
Proof.
  apply (scale_to_unit_range (of_Z 3) (of_Z 2) (of_Z 4)); reflexivity.
Defined.

(** X9: for a finite [min] and a width [max - min] that does not overflow,
    [interp(0, min, max)] is [min].  (When the width overflows, [0 * Infinity]
    makes the result [NaN].) *)
Theorem interp_at_zero (min max : number) :
  finite min = true -> finite (sub max min) = true ->
  strict_eq (interp zero min max) min = true /\
  ((forall t, min <> S754_zero t) -> interp zero min max = min).
Proof.
  intros Fn Fd. unfold interp. change zero with (S754_zero false).
  destruct (mul_zero_l false (sub max min) Fd) as [t ->].
  now apply add_zero_l.
Qed.

Lemma interp_at_zero_witness :
  strict_eq (interp zero (of_Z 2) (of_Z 4)) (of_Z 2) = true /\
  ((forall t, of_Z 2 <> S754_zero t) -> interp zero (of_Z 2) (of_Z 4) = of_Z 2).
Proof.
  apply (interp_at_zero (of_Z 2) (of_Z 4)); reflexivity.
Defined.

(** ** Random bounds, cycle and coin *)

Lemma truthy_not_nan (a : number) : falsy a = false -> a <> nan.
Proof. intros H ->. discriminate. Qed.

Lemma truthy_not_zero (a : number) : falsy a = false -> forall t, a <> S754_zero t.
Proof. intros H t ->. discriminate. Qed.

Lemma Math_min_comm (a b : number) :
  falsy a = false -> falsy b = false -> Math_min a b = Math_min b a.
Proof.
  intros Ha Hb. unfold Math_min.
  destruct (SFcompare a b) as [c|] eqn:E.
  - rewrite (SFcompare_swap _ _ _ E). destruct c; cbn [CompOpp]; try reflexivity.
    destruct (SFcompare_Eq_inv _ _ E) as [->|(s & t & -> & ->)]; [|discriminate].
    destruct b as [[]| | |]; reflexivity.
  - apply SFcompare_None in E. destruct E as [->| ->]; discriminate.
Qed.

Lemma Math_max_comm (a b : number) :
  falsy a = false -> falsy b = false -> Math_max a b = Math_max b a.
Proof.
  intros Ha Hb. unfold Math_max.
  destruct (SFcompare a b) as [c|] eqn:E.
  - rewrite (SFcompare_swap _ _ _ E). destruct c; cbn [CompOpp]; try reflexivity.
    destruct (SFcompare_Eq_inv _ _ E) as [->|(s & t & -> & ->)]; [|discriminate].
    destruct b as [[]| | |]; reflexivity.
  - apply SFcompare_None in E. destruct E as [->| ->]; discriminate.
Qed.

(** X10: the order of two truthy bounds does not matter to [rf] and [ri], and
    a second bound [0] is read as the call with one bound: [rf(a, 0)] is
    [rf(0, a)]. *)
Theorem random_bounds_order (u a b : number) :
  falsy a = false -> falsy b = false ->
  rf u a b = rf u b a /\ ri u a b = ri u b a /\
  rf u a zero = rf u zero a /\ ri u a zero = ri u zero a.
Proof.
  intros Ha Hb. unfold rf, ri. cbn [falsy zero]. rewrite Ha, Hb.
  rewrite (Math_min_comm a b), (Math_max_comm a b) by assumption.
  repeat split; reflexivity.
Qed.

Lemma random_bounds_order_witness :
  rf half (of_Z 20) (of_Z 2000) = rf half (of_Z 2000) (of_Z 20) /\
  ri half (of_Z 20) (of_Z 2000) = ri half (of_Z 2000) (of_Z 20) /\
  rf half (of_Z 20) zero = rf half zero (of_Z 20) /\
  ri half (of_Z 20) zero = ri half zero (of_Z 20).
Proof.
  apply (random_bounds_order half (of_Z 20) (of_Z 2000)); reflexivity.
Defined.

(** X11: with the draw [0], truthy finite bounds and a width that does not
    overflow, [rf] returns the lower bound and [ri] its floor: the lower end of
    the range is reached. *)
Theorem random_at_zero_draw (a b : number) :
  falsy a = false -> falsy b = false -> finite a = true -> finite b = true ->
  finite (sub (Math_max a b) (Math_min a b)) = true ->
  rf zero a b = Math_min a b /\ ri zero a b = Math_floor (Math_min a b).
Proof.
  intros Ha Hb Fa Fb Fd.
  assert (E : rf zero a b = Math_min a b).
  { unfold rf. rewrite Hb. change zero with (S754_zero false).
    destruct (mul_zero_l false _ Fd) as [t ->].
    destruct (Math_min_cases a b (truthy_not_nan a Ha) (truthy_not_nan b Hb)) as [[-> _]|[-> _]].
    - apply add_zero_l; [exact Fa|now apply truthy_not_zero].
    - apply add_zero_l; [exact Fb|now apply truthy_not_zero]. }
  split; [exact E|]. unfold rf in E. unfold ri. rewrite Hb in *. now rewrite E.
Qed.

Lemma random_at_zero_draw_witness :
  rf zero (of_Z 2000) (of_Z 20) = Math_min (of_Z 2000) (of_Z 20) /\
  ri zero (of_Z 2000) (of_Z 20) = Math_floor (Math_min (of_Z 2000) (of_Z 20)).
Proof.
  apply (random_at_zero_draw (of_Z 2000) (of_Z 20)); reflexivity.
Defined.

Lemma add_one_not_nan (x : number) : x <> nan -> add x one <> nan.
Proof.
  intros H. destruct x as [[]|[]| |s m e]; try (unfold nan; discriminate).
  - now elim H.
  - unfold add, one. cbn [SFadd]. apply binary_normalize_not_nan.
Qed.

(** X12: when [min < max] and the input is not [NaN], the value [cycle]
    returns is below [max]. *)
Theorem cycle_below_max (input min max : number) :
  lt min max = true -> input <> nan -> lt (cycle input min max) max = true.
Proof.
  intros Hlt Hin. unfold cycle, ge.
  pose proof (add_one_not_nan input Hin) as Hn.
  destruct (SFcompare (add input one) max) as [[]|] eqn:E; try exact Hlt.
  - now apply lt_SFcompare.
  - apply SFcompare_None in E. destruct E as [E| ->]; [contradiction|].
    destruct min; discriminate.
Qed.

Lemma cycle_below_max_witness :
  lt (cycle (of_Z 4) (of_Z 0) (of_Z 5)) (of_Z 5) = true.
Proof.
  apply (cycle_below_max (of_Z 4) (of_Z 0) (of_Z 5));
    [vm_compute; reflexivity|vm_compute; discriminate].
Defined.

(** X14: for every draw [u] in [[0, 1)], [coin(odds)] is [1] exactly when
    [u < odds]; so odds of [1] or more always give [1], and odds of [0] or
    less, or [NaN], always give [0]. *)
Theorem coin_threshold (u odds : number) :
  unit_draw u ->
  coin u (Some odds) = (if lt u odds then one else zero) /\
  (le one odds = true -> coin u (Some odds) = one) /\
  (le odds zero = true \/ odds = nan -> coin u (Some odds) = zero).
Proof.
  intros Hu. unfold coin. rewrite (rf_unit_draw u Hu).
  destruct Hu as (Hv & Hle & Hlt).
  assert (E : lt (match u with S754_zero _ => zero | _ => u end) odds = lt u odds).
  { destruct u as [s| | |]; reflexivity. }
  rewrite E. split; [reflexivity|]. split.
  - intros H. apply le_SFcompare in H. apply lt_SFcompare in Hlt.
    assert (L : SFcompare u odds = Some Lt).
    { destruct H as [H|H].
      - now apply SFcompare_Lt_trans with one.
      - now rewrite <- (SFcompare_Eq_r _ _ u H). }
    apply lt_SFcompare in L. now rewrite L.
  - intros [H| ->].
    + apply le_SFcompare in H. apply le_SFcompare in Hle.
      destruct (lt u odds) eqn:L; [exfalso|reflexivity].
      apply lt_SFcompare in L.
      assert (L' : SFcompare u zero = Some Lt).
      { destruct H as [H|H].
        - now apply SFcompare_Lt_trans with odds.
        - now rewrite <- (SFcompare_Eq_r _ _ u H). }
      destruct Hle as [Z|Z]; apply SFcompare_swap in Z; cbn in Z; congruence.
    + replace (lt u nan) with false by (destruct u; reflexivity). reflexivity.
Qed.

Lemma coin_threshold_witness :
  unit_draw half /\
  coin half (Some (dyadic 3 (-2))) = (if lt half (dyadic 3 (-2)) then one else zero) /\
  (le one (dyadic 3 (-2)) = true -> coin half (Some (dyadic 3 (-2))) = one) /\
  (le (dyadic 3 (-2)) zero = true \/ dyadic 3 (-2) = nan ->
   coin half (Some (dyadic 3 (-2))) = zero).
Proof.
  assert (H : unit_draw half) by (vm_compute; repeat split).
  exact (conj H (coin_threshold half (dyadic 3 (-2)) H)).
Defined.

(** *** distance *)

Lemma SFabs_opp (x : number) : SFabs (SFopp x) = SFabs x.
Proof. destruct x; reflexivity. Qed.

Lemma binary_normalize_abs_opp (z e : Z) :
  SFabs (binary_normalize prec emax (- z) e false)
  = SFabs (binary_normalize prec emax z e false).
Proof.
  destruct z as [|p|p]; cbn [Z.opp binary_normalize]; [reflexivity| |].
  - change true with (negb false). now rewrite binary_round_opp, SFabs_opp.
  - change true with (negb false). now rewrite binary_round_opp, SFabs_opp.
Qed.

(** Swapping the operands of a subtraction changes at most the sign. *)
Lemma sub_swap_abs (x y : number) : SFabs (sub y x) = SFabs (sub x y).
Proof.
  destruct x as [[]|[]| |sx mx ex], y as [[]|[]| |sy my ey]; try reflexivity.
  unfold sub. cbn [SFsub]. rewrite (Z.min_comm ey ex).
  set (a := cond_Zopp sx _). set (b := cond_Zopp sy _).
  replace (b - a) with (- (a - b)) by lia. apply binary_normalize_abs_opp.
Qed.

Lemma square_abs (a : number) : mul a a = mul (SFabs a) (SFabs a).
Proof. destruct a as [[]|[]| |[] m e]; reflexivity. Qed.

Lemma square_swap (x y : number) : mul (sub y x) (sub y x) = mul (sub x y) (sub x y).
Proof. now rewrite square_abs, sub_swap_abs, <- square_abs. Qed.

(** X15: [distance] does not depend on which of the two points comes first. *)
Theorem distance_symmetric (x1 y1 x2 y2 : number) :
  distance x1 y1 x2 y2 = distance x2 y2 x1 y1.
Proof.
  unfold distance. now rewrite (square_swap x1 x2), (square_swap y1 y2).
Qed.

Lemma binary_round_aux_abs (m e : Z) (l : location) :
  SFabs (binary_round_aux prec emax false m e l) = binary_round_aux prec emax false m e l.
Proof.
  rewrite binary_round_aux_eq. cbv zeta.
  destruct (shr_m _); [reflexivity| |reflexivity].
  destruct (_ <=? _); reflexivity.
Qed.

Lemma square_nonneg (a : number) : SFabs (mul a a) = mul a a.
Proof.
  destruct a as [[]|[]| |s m e]; try reflexivity.
  unfold mul. cbn [SFmul]. rewrite xorb_nilpotent. apply binary_round_aux_abs.
Qed.

Lemma add_nonneg (p q : number) : SFabs p = p -> SFabs q = q -> SFabs (add p q) = add p q.
Proof.
  destruct p as [[]|[]| |[] mp ep], q as [[]|[]| |[] mq eq];
    try discriminate; try reflexivity.
  intros _ _. unfold add. cbn [SFadd cond_Zopp].
  set (a := fst (shl_align mp ep _)). set (b := fst (shl_align mq eq _)).
  change (Zpos a + Zpos b) with (Zpos (a + b)). cbn [binary_normalize].
  unfold binary_round. destruct (shl_align (a + b) _ _). apply binary_round_aux_abs.
Qed.

Lemma sqrt_nonneg (p : number) : SFabs p = p -> SFabs (Math_sqrt p) = Math_sqrt p.
Proof.
  destruct p as [[]|[]| |[] m e]; try discriminate; try reflexivity.
  intros _. unfold Math_sqrt. cbn [SFsqrt].
  destruct (SFsqrt_core_binary prec emax (Zpos m) e) as [[mz ez] lz].
  apply binary_round_aux_abs.
Qed.

Lemma abs_not_negative (d : number) : SFabs d = d -> lt d zero = false.
Proof. destruct d as [[]|[]| |[] m e]; try discriminate; reflexivity. Qed.

(** X16: for all arguments, [distance] returns [NaN] or a value with a clear
    sign bit: never a negative number, never [-0]. *)
Theorem distance_not_negative (x1 y1 x2 y2 : number) :
  SFabs (distance x1 y1 x2 y2) = distance x1 y1 x2 y2 /\
  lt (distance x1 y1 x2 y2) zero = false.
Proof.
  assert (H : SFabs (distance x1 y1 x2 y2) = distance x1 y1 x2 y2).
  { unfold distance. apply sqrt_nonneg, add_nonneg; apply square_nonneg. }
  split; [exact H|now apply abs_not_negative].
Qed.

(** X18: the distance from a point with finite coordinates to itself is [+0]. *)
Theorem distance_to_itself (x y : number) :
  finite x = true -> finite y = true -> distance x y x y = zero.
Proof.
  intros Fx Fy. unfold distance. rewrite !sub_self by assumption. reflexivity.
Qed.

Lemma distance_to_itself_witness :
  distance (of_Z 3) (of_Z 4) (of_Z 3) (of_Z 4) = zero.
Proof.
  apply (distance_to_itself (of_Z 3) (of_Z 4)); reflexivity.
Defined.

Lemma sqrtrem_nonneg (n : Z) : 0 <= fst (Z.sqrtrem n).
Proof.
  destruct n as [|p|p]; try (cbn; lia).
  pose proof (Z.sqrtrem_spec (Zpos p)) as H.
  destruct (Z.sqrtrem (Zpos p)) as [s r]. cbn [fst]. specialize (H ltac:(lia)). lia.
Qed.

Lemma sqrt_not_nan (p : number) : SFabs p = p -> p <> nan -> Math_sqrt p <> nan.
Proof.
  destruct p as [[]|[]| |[] m e]; try discriminate; intros _ H;
    try (unfold nan; discriminate).
  - now elim H.
  - unfold Math_sqrt. cbn [SFsqrt].
    destruct (SFsqrt_core_binary prec emax (Zpos m) e) as [[mz ez] lz] eqn:E.
    apply binary_round_aux_not_nan.
    unfold SFsqrt_core_binary in E.
    destruct (Z.sqrtrem _) as [q r] eqn:Eq in E. injection E as <- _ _.
    change q with (fst (q, r)). rewrite <- Eq. apply sqrtrem_nonneg.
Qed.

Lemma square_not_nan (a : number) : a <> nan -> mul a a <> nan.
Proof.
  destruct a as [[]|[]| |s m e]; intros H; try (unfold nan; discriminate).
  - now elim H.
  - unfold mul. cbn [SFmul]. apply binary_round_aux_not_nan. lia.
Qed.

Lemma add_nonneg_not_nan (p q : number) :
  SFabs p = p -> SFabs q = q -> p <> nan -> q <> nan -> add p q <> nan.
Proof.
  destruct p as [[]|[]| |[] mp ep], q as [[]|[]| |[] mq eq];
    try discriminate; intros _ _ Hp Hq; try (unfold nan; discriminate);
    try (now elim Hp); try (now elim Hq).
  unfold add. cbn [SFadd]. apply binary_normalize_not_nan.
Qed.

(** X17: between points with finite coordinates [distance] is a number that
    is [0] or more (an infinity when the squares overflow), never [NaN]. *)
Theorem distance_of_finite_points (x1 y1 x2 y2 : number) :
  finite x1 = true -> finite y1 = true -> finite x2 = true -> finite y2 = true ->
  le zero (distance x1 y1 x2 y2) = true.
Proof.
  intros F1 F2 F3 F4.
  assert (Hn : distance x1 y1 x2 y2 <> nan).
  { unfold distance. apply sqrt_not_nan.
    - apply add_nonneg; apply square_nonneg.
    - apply add_nonneg_not_nan; try apply square_nonneg;
        apply square_not_nan; now apply sub_finite_not_nan. }
  assert (Ha : SFabs (distance x1 y1 x2 y2) = distance x1 y1 x2 y2).
  { unfold distance. apply sqrt_nonneg, add_nonneg; apply square_nonneg. }
  destruct (distance x1 y1 x2 y2) as [[]|[]| |[] m e]; try discriminate; try reflexivity.
  now elim Hn.
Qed.

Lemma distance_of_finite_points_witness :
  le zero (distance (of_Z 0) (of_Z 0) (of_Z 3) (of_Z 4)) = true.
Proof.
  apply (distance_of_finite_points (of_Z 0) (of_Z 0) (of_Z 3) (of_Z 4)); reflexivity.
Defined.

(** *** average *)

Lemma add_nan_l (x : number) : add nan x = nan.
Proof. reflexivity. Qed.

Lemma add_nan_r (x : number) : add x nan = nan.
Proof. destruct x as [[]|[]| |[] m e]; reflexivity. Qed.

Lemma fold_add_nan (data : list number) : fold_left (fun a b => add a b) data nan = nan.
Proof. induction data as [|x xs IH]; [reflexivity|exact IH]. Qed.

Lemma reduce_sum_nan (data : list number) (acc : number) :
  In nan data -> fold_left (fun a b => add a b) data acc = nan.
Proof.
  revert acc. induction data as [|x xs IH]; intros acc H; [contradiction|].
  cbn [fold_left]. destruct H as [->|H].
  - rewrite add_nan_r. apply fold_add_nan.
  - now apply IH.
Qed.

(** X19: a [NaN] anywhere in the sequence makes [average] return [NaN]. *)
Theorem average_nan (data : list number) : In nan data -> average data = nan.
Proof.
  intros H. unfold average, reduce_sum. rewrite reduce_sum_nan by exact H. reflexivity.
Qed.

Lemma average_nan_witness :
  average [of_Z 1; nan; of_Z 2] = nan.
Proof.
  apply (average_nan [of_Z 1; nan; of_Z 2]). right. left. reflexivity.
Defined.

(** ** Integers in binary64 *)

Lemma integer_form_bounded (q : positive) :
  Zpos (digits2_pos q) <= 53 ->
  bounded prec emax (integer_mantissa q) (integer_exponent q) = true.
Proof.
  intros Hd. unfold bounded, canonical_mantissa, integer_mantissa, integer_exponent.
  rewrite digits_iter_double, fexp_eq. apply andb_true_iff. split.
  - apply Z.eqb_eq. lia.
  - apply Z.leb_le. change (emax - prec) with 971. lia.
Qed.

(** Rounding [q * 2^j] at exponent [-j] gives the binary64 form of the
    integer [q], whatever the shift [j]. *)
Lemma binary_round_integer (s : bool) (q : positive) (j : nat) :
  Zpos (digits2_pos q) <= 53 ->
  binary_round prec emax s (Nat.iter j xO q) (- Z.of_nat j)
  = S754_finite s (integer_mantissa q) (integer_exponent q).
Proof.
  intros Hd. pose proof (integer_form_bounded q Hd) as Hb.
  unfold binary_round, shl_align. rewrite digits_iter_double, fexp_eq.
  set (d := Zpos (digits2_pos q)) in *.
  assert (Hdn : Z.of_nat (Pos.to_nat (digits2_pos q)) = d) by apply positive_nat_Z.
  replace (Z.max (d + Z.of_nat j + - Z.of_nat j - 53) (-1074)) with (d - 53) by lia.
  destruct (d - 53 - - Z.of_nat j) as [|k|k] eqn:E.
  - replace (Nat.iter j xO q) with (Nat.iter 0 xO (integer_mantissa q)).
    + replace (- Z.of_nat j) with (integer_exponent q - Z.of_nat 0)
        by (unfold integer_exponent; fold d; lia).
      now apply binary_round_aux_exact.
    + unfold integer_mantissa. cbn [Nat.iter nat_rect]. f_equal. lia.
  - replace (Nat.iter j xO q) with (Nat.iter (Pos.to_nat k) xO (integer_mantissa q)).
    + replace (- Z.of_nat j) with (integer_exponent q - Z.of_nat (Pos.to_nat k))
        by (unfold integer_exponent; fold d; lia).
      now apply binary_round_aux_exact.
    + unfold integer_mantissa. rewrite <- Nat.iter_add. f_equal. lia.
  - rewrite Pos2Nat.inj_iter.
    change (nat_rect _ (Nat.iter j xO q) (fun _ => xO) (Pos.to_nat k))
      with (Nat.iter (Pos.to_nat k) xO (Nat.iter j xO q)).
    rewrite <- Nat.iter_add.
    replace (Pos.to_nat k + j)%nat with (53 - Pos.to_nat (digits2_pos q))%nat by lia.
    fold (integer_mantissa q).
    replace (d - 53) with (integer_exponent q - Z.of_nat 0)
      by (unfold integer_exponent; fold d; cbn [Z.of_nat]; lia).
    exact (binary_round_aux_exact s (integer_mantissa q) (integer_exponent q) 0 Hb).
Qed.

Lemma digits_small (q : positive) : Zpos q < 2 ^ 53 -> Zpos (digits2_pos q) <= 53.
Proof.
  intros H. pose proof (digits2_pos_bounds q) as [L _].
  destruct (Z.le_gt_cases (Zpos (digits2_pos q)) 53) as [|G]; [assumption|exfalso].
  assert (2 ^ 53 <= 2 ^ (Zpos (digits2_pos q) - 1)) by (apply Z.pow_le_mono_r; lia). lia.
Qed.

Lemma of_Z_pos (q : positive) :
  Zpos q < 2 ^ 53 ->
  of_Z (Zpos q) = S754_finite false (integer_mantissa q) (integer_exponent q).
Proof. intros H. exact (binary_round_integer false q 0 (digits_small q H)). Qed.

Lemma of_Z_neg (q : positive) :
  Zpos q < 2 ^ 53 ->
  of_Z (Zneg q) = S754_finite true (integer_mantissa q) (integer_exponent q).
Proof. intros H. exact (binary_round_integer true q 0 (digits_small q H)). Qed.

Lemma integer_mantissa_value (q : positive) :
  Zpos (digits2_pos q) <= 53 ->
  Zpos (integer_mantissa q) = Zpos q * 2 ^ (- integer_exponent q).
Proof.
  intros H. unfold integer_mantissa, integer_exponent. rewrite Zpos_iter_double.
  f_equal. f_equal. lia.
Qed.

Lemma compare_iter_double (c : nat) (p q : positive) :
  (Nat.iter c xO p ?= Nat.iter c xO q)%positive = (p ?= q)%positive.
Proof. induction c as [|c IH]; [reflexivity|exact IH]. Qed.

Lemma compare_integer_forms (p q : positive) :
  Zpos p < 2 ^ 53 -> Zpos q < 2 ^ 53 ->
  match integer_exponent p ?= integer_exponent q with
  | Lt => Lt
  | Gt => Gt
  | Eq => (integer_mantissa p ?= integer_mantissa q)%positive
  end = (p ?= q)%positive.
Proof.
  intros Hp Hq. unfold integer_exponent, integer_mantissa.
  pose proof (digits2_pos_bounds p) as Bp. pose proof (digits2_pos_bounds q) as Bq.
  destruct (Z.compare_spec (Zpos (digits2_pos p) - 53) (Zpos (digits2_pos q) - 53))
    as [E|L|G].
  - assert (H : digits2_pos p = digits2_pos q) by lia. rewrite H.
    apply compare_iter_double.
  - symmetry. apply Pos.compare_lt_iff.
    assert (2 ^ Zpos (digits2_pos p) <= 2 ^ (Zpos (digits2_pos q) - 1))
      by (apply Z.pow_le_mono_r; lia). lia.
  - symmetry. apply Pos.compare_gt_iff.
    assert (2 ^ Zpos (digits2_pos q) <= 2 ^ (Zpos (digits2_pos p) - 1))
      by (apply Z.pow_le_mono_r; lia). lia.
Qed.

(** Conversion of integers below [2^53] in size preserves the order. *)
Lemma of_Z_compare (a b : Z) :
  Z.abs a < 2 ^ 53 -> Z.abs b < 2 ^ 53 ->
  SFcompare (of_Z a) (of_Z b) = Some (a ?= b).
Proof.
  intros Ha Hb.
  destruct a as [|p|p], b as [|q|q];
    rewrite ?of_Z_pos, ?of_Z_neg by lia; try reflexivity.
  - cbn [SFcompare]. rewrite compare_cont_Eq, compare_integer_forms by lia. reflexivity.
  - cbn [SFcompare Z.compare]. rewrite compare_cont_Eq.
    rewrite <- (compare_integer_forms p q) by lia.
    destruct (integer_exponent p ?= integer_exponent q); reflexivity.
Qed.

Lemma binary_normalize_integer (z : Z) (j : nat) :
  Z.abs z < 2 ^ 53 ->
  binary_normalize prec emax (z * 2 ^ Z.of_nat j) (- Z.of_nat j) false = of_Z z.
Proof.
  intros Hz. destruct z as [|q|q].
  - reflexivity.
  - rewrite of_Z_pos by lia. rewrite <- Zpos_iter_double. cbn [binary_normalize].
    apply binary_round_integer, digits_small. lia.
  - rewrite of_Z_neg by lia.
    replace (Zneg q * 2 ^ Z.of_nat j) with (Zneg (Nat.iter j xO q))
      by (rewrite <- !Pos2Z.opp_pos, Zpos_iter_double; lia).
    cbn [binary_normalize]. apply binary_round_integer, digits_small. lia.
Qed.

(** The aligned mantissa of an integer's binary64 form, as [SFadd] sees it. *)
Lemma aligned_integer (s : bool) (q : positive) (ez : Z) :
  Zpos q < 2 ^ 53 -> ez <= integer_exponent q -> ez <= 0 ->
  cond_Zopp s (Zpos (fst (shl_align (integer_mantissa q) (integer_exponent q) ez)))
  = cond_Zopp s (Zpos q) * 2 ^ (- ez).
Proof.
  intros Hq He Hz. pose proof (digits_small q Hq) as Hd.
  rewrite shl_align_value by exact He. rewrite integer_mantissa_value by exact Hd.
  assert (Hi : integer_exponent q <= 0) by (unfold integer_exponent; lia).
  replace (- ez) with (- integer_exponent q + (integer_exponent q - ez)) by lia.
  rewrite Z.pow_add_r by lia. destruct s; cbn [cond_Zopp]; lia.
Qed.

(** Adding two integers is exact while the operands and the sum stay
    below [2^53] in size. *)
Lemma of_Z_add (a b : Z) :
  Z.abs a < 2 ^ 53 -> Z.abs b < 2 ^ 53 -> Z.abs (a + b) < 2 ^ 53 ->
  add (of_Z a) (of_Z b) = of_Z (a + b).
Proof.
  intros Ha Hb Hab.
  assert (G : forall (sa sb : bool) (p q : positive),
             Zpos p < 2 ^ 53 -> Zpos q < 2 ^ 53 ->
             Z.abs (cond_Zopp sa (Zpos p) + cond_Zopp sb (Zpos q)) < 2 ^ 53 ->
             add (S754_finite sa (integer_mantissa p) (integer_exponent p))
                 (S754_finite sb (integer_mantissa q) (integer_exponent q))
             = of_Z (cond_Zopp sa (Zpos p) + cond_Zopp sb (Zpos q))).
  { intros sa sb p q Hp Hq Hs. unfold add. cbn [SFadd].
    set (ez := Z.min (integer_exponent p) (integer_exponent q)).
    assert (Hz : ez <= 0).
    { pose proof (digits_small p Hp). unfold ez, integer_exponent. lia. }
    rewrite !aligned_integer by (try assumption; unfold ez; lia).
    rewrite <- Z.mul_add_distr_r.
    replace ez with (- Z.of_nat (Z.to_nat (- ez))) at 2 by lia.
    replace (- ez) with (Z.of_nat (Z.to_nat (- ez))) at 1 by lia.
    now apply binary_normalize_integer. }
  destruct a as [|p|p], b as [|q|q].
  - reflexivity.
  - cbn [Z.add]. now rewrite of_Z_pos by lia.
  - cbn [Z.add]. now rewrite of_Z_neg by lia.
  - cbn [Z.add]. now rewrite of_Z_pos by lia.
  - rewrite (of_Z_pos p), (of_Z_pos q) by lia. apply (G false false); cbn [cond_Zopp]; lia.
  - rewrite (of_Z_pos p), (of_Z_neg q) by lia. apply (G false true); cbn [cond_Zopp]; lia.
  - cbn [Z.add]. now rewrite of_Z_neg by lia.
  - rewrite (of_Z_neg p), (of_Z_pos q) by lia. apply (G true false); cbn [cond_Zopp]; lia.
  - rewrite (of_Z_neg p), (of_Z_neg q) by lia. apply (G true true); cbn [cond_Zopp]; lia.
Qed.

(** X13: on integers below [2^53] in size the increment is exact and [cycle]
    is the wrap-around counter: [min] when [input + 1 >= max], else
    [input + 1]; from [min <= input < max] it stays in [[min, max)]. *)
Theorem cycle_integer_counter (n lo hi : Z) :
  Z.abs n < 2 ^ 53 - 1 -> Z.abs hi < 2 ^ 53 ->
  cycle (of_Z n) (of_Z lo) (of_Z hi) = of_Z (if hi <=? n + 1 then lo else n + 1) /\
  (lo <= n < hi -> lo <= (if hi <=? n + 1 then lo else n + 1) < hi).
Proof.
  intros Hn Hh. split.
  - unfold cycle, ge. change one with (of_Z 1).
    rewrite of_Z_add by (cbn [Z.abs]; lia). rewrite of_Z_compare by lia.
    destruct (Z.compare_spec (n + 1) hi) as [E|L|G];
      destruct (Z.leb_spec hi (n + 1)); try reflexivity; lia.
  - intros H. destruct (Z.leb_spec hi (n + 1)); lia.
Qed.

Lemma cycle_integer_counter_witness :
  cycle (of_Z 3) (of_Z 0) (of_Z 4) = of_Z (if 4 <=? 3 + 1 then 0 else 3 + 1) /\
  (0 <= 3 < 4 -> 0 <= (if 4 <=? 3 + 1 then 0 else 3 + 1) < 4).
Proof.
  apply (cycle_integer_counter 3 0 4); reflexivity.
Defined.

End Transforms.

(** * Further properties of the smoothing filter *)

Section Filter.
Import Js Smooth.
Local Open Scope Z_scope.

Lemma Lowpass_eq (a b : Lowpass) :
  factor a = factor b -> history a = history b -> a = b.
Proof. destruct a, b. cbn. intros -> ->. reflexivity. Qed.

Lemma update_negative (self : Lowpass) (value : number) :
  factor self < 0 -> history self = [] ->
  fst (update self value) = nan /\ history (snd (update self value)) = [].
Proof.
  intros Hk Hh. unfold update. rewrite Hh. cbn [app length fst snd history].
  destruct (Z.gtb_spec (Z.of_nat 1) (factor self)) as [_|H]; [|lia].
  unfold splice_front. cbn [length].
  replace (Z.to_nat _) with 1%nat by lia. cbn [skipn]. split; reflexivity.
Qed.

(** X20: a filter built with a negative capacity keeps no sample: every
    [update] empties the history and returns [NaN], the value of [0 / 0]. *)
Theorem lowpass_negative_capacity (k : Z) (samples : list number) (value : number) :
  k < 0 ->
  fst (update (feed (constructor (Some k)) samples) value) = nan /\
  history (snd (update (feed (constructor (Some k)) samples) value)) = [].
Proof.
  intros Hk.
  assert (Hf : factor (constructor (Some k)) = k).
  { cbn. destruct (Z.eqb_spec k 0); [lia|reflexivity]. }
  assert (Inv : history (feed (constructor (Some k)) samples) = []).
  { induction samples as [|x xs IH] using rev_ind; [reflexivity|].
    rewrite feed_app. cbn [feed]. apply update_negative; [|exact IH].
    rewrite feed_factor, Hf. exact Hk. }
  apply update_negative; [|exact Inv]. rewrite feed_factor, Hf. exact Hk.
Qed.

Lemma lowpass_negative_capacity_witness :
  fst (update (feed (constructor (Some (-1))) [of_Z 1; of_Z 2]) (of_Z 3)) = nan /\
  history (snd (update (feed (constructor (Some (-1))) [of_Z 1; of_Z 2]) (of_Z 3))) = [].
Proof.
  apply (lowpass_negative_capacity (-1) [of_Z 1; of_Z 2] (of_Z 3)). reflexivity.
Defined.

Lemma add_zero_valid (v : number) : is_number v -> is_number (add zero v).
Proof. destruct v as [[]|[]| |s m e]; intros H; try reflexivity. exact H. Qed.

Lemma update_capacity_one (self : Lowpass) (value : number) :
  factor self = 1 -> (length (history self) <= 1)%nat -> is_number value ->
  fst (update self value) = add zero value /\
  history (snd (update self value)) = [value].
Proof.
  intros Hk Hl Hv. unfold update. rewrite Hk.
  destruct (history self) as [|h [|h' t]]; cbn [length] in Hl; [| |lia].
  - cbn [app length fst snd history]. change (Z.of_nat 1 >? 1) with false. cbv iota.
    unfold reduce_sum. cbn [fold_left length].
    change (of_nat 1) with one. rewrite div_one_r by now apply add_zero_valid. auto.
  - cbn [app length fst snd history]. change (Z.of_nat 2 >? 1) with true. cbv iota.
    unfold splice_front. cbn [length].
    change (Z.to_nat _) with 1%nat. cbn [skipn].
    unfold reduce_sum. cbn [fold_left length].
    change (of_nat 1) with one. rewrite div_one_r by now apply add_zero_valid. auto.
Qed.

(** X21: a filter of capacity [1] does not smooth: every [update] returns its
    sample (a sample [-0] comes back as [+0]). *)
Theorem lowpass_capacity_one (samples : list number) :
  Forall is_number samples ->
  outputs (constructor (Some 1)) samples = map (add zero) samples.
Proof.
  assert (G : forall self, factor self = 1 -> (length (history self) <= 1)%nat ->
              Forall is_number samples -> outputs self samples = map (add zero) samples).
  { induction samples as [|x xs IH]; intros self Hk Hl Hs; [reflexivity|].
    inversion Hs as [|? ? Hx Hxs]; subst.
    destruct (update_capacity_one self x Hk Hl Hx) as [E1 E2].
    cbn [outputs map]. rewrite E1. f_equal. apply IH; [now rewrite update_factor|rewrite E2; cbn; lia|exact Hxs]. }
  apply G; [reflexivity|cbn; lia].
Qed.

Lemma lowpass_capacity_one_witness :
  outputs (constructor (Some 1)) [of_Z 1; of_Z 2] = map (add zero) [of_Z 1; of_Z 2].
Proof.
  apply (lowpass_capacity_one [of_Z 1; of_Z 2]).
  repeat constructor.
Defined.

(** X22: whatever the positive capacity, the first [update] of a new filter
    returns its sample (a sample [-0] comes back as [+0]). *)
Theorem lowpass_first_sample (k : Z) (value : number) :
  0 < k -> is_number value ->
  fst (update (constructor (Some k)) value) = add zero value.
Proof.
  intros Hk Hv. unfold update.
  assert (Hf : factor (constructor (Some k)) = k).
  { cbn. destruct (Z.eqb_spec k 0); [lia|reflexivity]. }
  rewrite Hf. cbn [constructor history app length].
  destruct (Z.gtb_spec (Z.of_nat 1) k) as [H|_]; [lia|].
  cbn [fst]. unfold reduce_sum. cbn [fold_left length].
  change (of_nat 1) with one. apply div_one_r. now apply add_zero_valid.
Qed.

Lemma lowpass_first_sample_witness :
  fst (update (constructor (Some 3)) (of_Z 7)) = add zero (of_Z 7).
Proof.
  apply (lowpass_first_sample 3 (of_Z 7)); reflexivity.
Defined.

(** X23: a filter of capacity [k] forgets what is older than its [k] latest
    samples: after at least [k] samples it is in the state those samples alone
    lead to, so every later [update] returns the same value. *)
Theorem lowpass_forgets (k : Z) (older latest : list number) :
  0 < k -> (Z.to_nat k <= length latest)%nat ->
  feed (constructor (Some k)) (older ++ latest) = feed (constructor (Some k)) latest.
Proof.
  intros Hk Hl. apply Lowpass_eq.
  - now rewrite !feed_factor.
  - rewrite !feed_history by exact Hk. unfold most_recent.
    rewrite length_app.
    replace (Nat.min (length older + length latest) (Z.to_nat k)) with (Z.to_nat k) by lia.
    replace (Nat.min (length latest) (Z.to_nat k)) with (Z.to_nat k) by lia.
    rewrite skipn_app.
    replace (length older + length latest - Z.to_nat k - length older)%nat
      with (length latest - Z.to_nat k)%nat by lia.
    rewrite skipn_all2 by lia. reflexivity.
Qed.

Lemma lowpass_forgets_witness :
  feed (constructor (Some 2)) ([of_Z 1] ++ [of_Z 2; of_Z 3])
  = feed (constructor (Some 2)) [of_Z 2; of_Z 3].
Proof.
  apply (lowpass_forgets 2 [of_Z 1] [of_Z 2; of_Z 3]); [reflexivity|cbn; lia].
Defined.

End Filter.

(** * Rounding and order

    Round-to-nearest never passes a representable value: when the exact
    result of a sum, a difference or a product is at most, or at least, a
    binary64 value, so is the rounded result.  The operations are followed on
    their integer mantissas, as [SpecFloat] computes them. *)

Section RoundingOrder.
Import Js.
Local Open Scope Z_scope.

(** ** What the right shifts keep *)

Lemma shr_1_spec (r : shr_record) :
  0 <= shr_m r ->
  shr_m (shr_1 r) = shr_m r / 2 /\ shr_r (shr_1 r) = Z.odd (shr_m r).
Proof.
  destruct r as [m r s]. cbn [shr_m]. intros Hm.
  destruct m as [|p|p]; [split; reflexivity| |lia].
  destruct p as [p|p|]; cbn [shr_1 shr_m shr_r].
  - split; [|reflexivity]. rewrite Pos2Z.inj_xI.
    apply (Z.div_unique _ _ _ 1); lia.
  - split; [|reflexivity]. rewrite Pos2Z.inj_xO.
    apply (Z.div_unique _ _ _ 0); lia.
  - split; reflexivity.
Qed.

(** [j] right shifts of a mantissa [M]: the quotient by [2^j] is left, and the
    round bit is set only when the part shifted out is at least half of
    [2^j]. *)
Lemma shr_iter_spec (j : nat) (M : Z) :
  0 <= M ->
  let r := Nat.iter j shr_1 (exact_record M) in
  shr_m r = M / 2 ^ Z.of_nat j /\
  (shr_r r = true -> 2 ^ Z.of_nat j <= 2 * (M mod 2 ^ Z.of_nat j)).
Proof.
  intros HM. induction j as [|j IH]; cbv zeta in *.
  - cbn [Nat.iter nat_rect exact_record shr_m shr_r Z.of_nat]. rewrite Z.pow_0_r, Z.div_1_r.
    split; [reflexivity|discriminate].
  - change (Nat.iter (S j) shr_1 (exact_record M))
      with (shr_1 (Nat.iter j shr_1 (exact_record M))).
    destruct IH as [IH1 _].
    set (r := Nat.iter j shr_1 (exact_record M)) in *.
    assert (Hp : 0 < 2 ^ Z.of_nat j) by (apply Z.pow_pos_nonneg; lia).
    assert (Hr : 0 <= shr_m r) by (rewrite IH1; apply Z.div_pos; lia).
    destruct (shr_1_spec r Hr) as [S1 S2].
    rewrite Nat2Z.inj_succ, Z.pow_succ_r by lia.
    split.
    + rewrite S1, IH1, Z.div_div by lia. f_equal. lia.
    + rewrite S2, IH1. intros Hodd.
      pose proof (Z.div_mod M (2 ^ Z.of_nat j)) as D1.
      pose proof (Z.mod_pos_bound M (2 ^ Z.of_nat j) Hp) as B1.
      pose proof (Zodd_bool_iff (M / 2 ^ Z.of_nat j)) as O. rewrite Hodd in O.
      destruct O as [O _]. specialize (O eq_refl). apply Zodd_ex in O. destruct O as [a Ha].
      assert (E : M mod (2 * 2 ^ Z.of_nat j) = 2 ^ Z.of_nat j + M mod 2 ^ Z.of_nat j).
      { symmetry. apply (Z.mod_unique_pos _ _ a); [lia|].
        rewrite D1 at 1 by lia. rewrite Ha. ring. }
      rewrite E. lia.
Qed.

(** The first shift of [binary_round_aux] on an exact input. *)
Lemma shr_fexp_exact_eq (M E : Z) :
  E <= fexp prec emax (Zdigits2 M + E) ->
  shr_fexp prec emax M E loc_Exact
  = (Nat.iter (Z.to_nat (fexp prec emax (Zdigits2 M + E) - E)) shr_1 (exact_record M),
     fexp prec emax (Zdigits2 M + E)).
Proof.
  intros H. unfold shr_fexp, shr. cbn [shr_record_of_loc].
  destruct (fexp prec emax (Zdigits2 M + E) - E) as [|p|p] eqn:Hk.
  - cbn [Z.to_nat Nat.iter nat_rect]. unfold exact_record. f_equal. lia.
  - rewrite iter_pos_nat. cbn [Z.to_nat]. unfold exact_record. f_equal. lia.
  - lia.
Qed.

(** Round-to-nearest-even adds one only when the round bit is set. *)
Lemma round_up_bit (r : shr_record) :
  round_nearest_even (shr_m r) (loc_of_shr_record r) = shr_m r \/
  (round_nearest_even (shr_m r) (loc_of_shr_record r) = shr_m r + 1 /\ shr_r r = true).
Proof.
  destruct r as [m [] []]; cbn [shr_m shr_r loc_of_shr_record round_nearest_even];
    try destruct (Z.even m); auto.
Qed.

Lemma Zdigits2_bounds (z : Z) : 0 < z -> 2 ^ (Zdigits2 z - 1) <= z < 2 ^ Zdigits2 z.
Proof. destruct z as [|p|p]; try lia. intros _. apply digits2_pos_bounds. Qed.

Lemma Zdigits2_le (z n : Z) : 0 <= n -> 0 <= z < 2 ^ n -> Zdigits2 z <= n.
Proof.
  intros Hn [H0 H]. destruct (Z.eq_dec z 0) as [->|Hz]; [cbn; lia|].
  pose proof (Zdigits2_bounds z ltac:(lia)) as [L _].
  destruct (Z.le_gt_cases (Zdigits2 z) n) as [|G]; [assumption|exfalso].
  assert (2 ^ n <= 2 ^ (Zdigits2 z - 1)) by (apply Z.pow_le_mono_r; lia). lia.
Qed.

Lemma Zdigits2_ge (z n : Z) : 2 ^ n <= z -> n < Zdigits2 z.
Proof.
  intros H. assert (0 < 2 ^ n \/ n < 0) as [Hp|Hn].
  { destruct (Z.le_gt_cases 0 n); [left; apply Z.pow_pos_nonneg; lia|right; lia]. }
  - pose proof (Zdigits2_bounds z ltac:(lia)) as [_ U].
    destruct (Z.lt_ge_cases n (Zdigits2 z)) as [|G]; [assumption|exfalso].
    assert (2 ^ Zdigits2 z <= 2 ^ n) by (apply Z.pow_le_mono_r; lia). lia.
  - pose proof (Zdigits2_nonneg z). lia.
Qed.

(** What [binary_round_aux] returns for an exact input [M * 2^E]: the
    mantissa is cut at the canonical exponent [e1], rounded up at most by one
    and only when the part cut off is at least half a unit, and the result
    holds that units. *)
Lemma round_aux_spec (s : bool) (M E : Z) :
  0 < M -> E <= fexp prec emax (Zdigits2 M + E) ->
  let e1 := fexp prec emax (Zdigits2 M + E) in
  exists m1, rounded M (e1 - E) m1 /\
    match binary_round_aux prec emax s M E loc_Exact with
    | S754_zero s' => s' = s /\ m1 = 0
    | S754_finite s' m2 e2 =>
        s' = s /\ bounded prec emax m2 e2 = true /\ e1 <= e2 /\ Zpos m2 * 2 ^ (e2 - e1) = m1
    | S754_infinity s' =>
        s' = s /\ exists m2 e2, 971 < e2 /\ e1 <= e2 /\ Zpos m2 * 2 ^ (e2 - e1) = m1 /\
                                2 ^ 52 <= Zpos m2
    | S754_nan => False
    end.
Proof.
  intros HM HE e1.
  pose proof (binary_round_aux_steps M E loc_Exact (Z.lt_le_incl _ _ HM) HE) as Hsteps.
  rewrite binary_round_aux_eq. cbv zeta in *.
  rewrite (shr_fexp_exact_eq M E HE) in *. cbn [fst snd] in *. fold e1 in Hsteps |- *.
  set (k := e1 - E) in *. assert (Hk : 0 <= k) by (unfold k; lia).
  destruct (shr_iter_spec (Z.to_nat k) M (Z.lt_le_incl _ _ HM)) as [Q1 Q2].
  rewrite Z2Nat.id in Q1, Q2 by exact Hk.
  set (r1 := Nat.iter (Z.to_nat k) shr_1 (exact_record M)) in *.
  set (m1 := round_nearest_even (shr_m r1) (loc_of_shr_record r1)) in *.
  assert (Hp : 0 < 2 ^ k) by (apply Z.pow_pos_nonneg; lia).
  assert (Hq0 : 0 <= M / 2 ^ k) by (apply Z.div_pos; lia).
  assert (Hr : rounded M k m1).
  { unfold rounded, m1. destruct (round_up_bit r1) as [R|[R B]]; rewrite R, Q1; auto. }
  exists m1. split; [exact Hr|].
  (* the quotient has at most 53 digits *)
  pose proof (Zdigits2_bounds M HM) as [DL DU].
  set (d := Zdigits2 M) in *.
  assert (He1 : e1 = Z.max (d + E - 53) (-1074)) by (unfold e1; apply fexp_eq).
  assert (Hq53 : M / 2 ^ k < 2 ^ 53).
  { apply Z.div_lt_upper_bound; [exact Hp|]. rewrite <- Z.pow_add_r by lia.
    eapply Z.lt_le_trans; [exact DU|]. apply Z.pow_le_mono_r; lia. }
  assert (Hm1 : 0 <= m1 <= 2 ^ 53) by (destruct Hr as [->|[-> _]]; lia).
  destruct (Z.eq_dec m1 (2 ^ 53)) as [Etop|Ntop].
  - (* the rounding carried into a 54th digit *)
    assert (Hshift : shr_fexp prec emax m1 e1 loc_Exact = (exact_record (2 ^ 52), e1 + 1)).
    { rewrite Etop. unfold shr_fexp. change (Zdigits2 (2 ^ 53)) with 54. rewrite fexp_eq.
      replace (Z.max (54 + e1 - 53) (-1074) - e1) with 1 by lia. reflexivity. }
    rewrite Hshift in *. cbn [fst snd exact_record shr_m] in *.
    change (2 ^ 52) with (Zpos 4503599627370496) in *.
    destruct Hsteps as (_ & Hc & _). specialize (Hc ltac:(lia)).
    destruct (e1 + 1 <=? emax - prec) eqn:Hle.
    + split; [reflexivity|]. split.
      * unfold bounded, canonical_mantissa. rewrite Hle, andb_true_r. apply Z.eqb_eq. exact Hc.
      * split; [lia|]. replace (e1 + 1 - e1) with 1 by lia. rewrite Etop. reflexivity.
    + split; [reflexivity|]. exists 4503599627370496%positive, (e1 + 1).
      apply Z.leb_gt in Hle. change (emax - prec) with 971 in Hle.
      repeat split; try lia. replace (e1 + 1 - e1) with 1 by lia. rewrite Etop. reflexivity.
  - (* no further shift *)
    assert (Hd1 : Zdigits2 m1 <= 53) by (apply Zdigits2_le; lia).
    assert (Hshift : shr_fexp prec emax m1 e1 loc_Exact = (exact_record m1, e1)).
    { unfold shr_fexp, shr. rewrite fexp_eq. cbn [shr_record_of_loc].
      destruct (Z.max (Zdigits2 m1 + e1 - 53) (-1074) - e1) eqn:Hn; try reflexivity. lia. }
    rewrite Hshift in *. cbn [fst snd exact_record shr_m] in *.
    destruct Hsteps as (_ & Hc & _).
    destruct m1 as [|p|p] eqn:Em1; [split; reflexivity| |lia].
    specialize (Hc ltac:(lia)).
    destruct (e1 <=? emax - prec) eqn:Hle.
    + split; [reflexivity|]. split.
      * unfold bounded, canonical_mantissa. rewrite Hle, andb_true_r. apply Z.eqb_eq. exact Hc.
      * split; [lia|]. rewrite Z.sub_diag. lia.
    + split; [reflexivity|]. exists p, e1.
      apply Z.leb_gt in Hle. change (emax - prec) with 971 in Hle.
      rewrite fexp_eq in Hc. cbn [Zdigits2] in Hc.
      pose proof (digits2_pos_bounds p) as [L _].
      replace (Zpos (digits2_pos p)) with 53 in L by lia.
      repeat split; try lia. rewrite Z.sub_diag. lia.
Qed.

(** ** Values in units of [2^-2148] *)

Lemma scaled_shift (m e k : Z) :
  0 <= k -> -2148 <= e -> scaled (m * 2 ^ k) e = scaled m (e + k).
Proof.
  intros Hk He. unfold scaled.
  replace (e + k + 2148) with (k + (e + 2148)) by lia.
  rewrite (Z.pow_add_r 2 k (e + 2148)) by lia. ring.
Qed.

Lemma scaled_pos (m e : Z) : 0 < m -> -2148 <= e -> 0 < scaled m e.
Proof.
  intros Hm He. unfold scaled. apply Z.mul_pos_pos; [exact Hm|].
  apply Z.pow_pos_nonneg; lia.
Qed.

Lemma scaled_lt_pow (m e n : Z) :
  0 <= n -> -2148 <= e -> m < 2 ^ n -> scaled m e < 2 ^ (n + e + 2148).
Proof.
  intros Hn He Hm. unfold scaled.
  replace (n + e + 2148) with (n + (e + 2148)) by lia.
  rewrite (Z.pow_add_r 2 n (e + 2148)) by lia.
  apply Z.mul_lt_mono_pos_r; [apply Z.pow_pos_nonneg; lia|exact Hm].
Qed.

Lemma scaled_ge_pow (m e n : Z) :
  0 <= n -> -2148 <= e -> 2 ^ n <= m -> 2 ^ (n + e + 2148) <= scaled m e.
Proof.
  intros Hn He Hm. unfold scaled.
  replace (n + e + 2148) with (n + (e + 2148)) by lia.
  rewrite (Z.pow_add_r 2 n (e + 2148)) by lia.
  apply Z.mul_le_mono_nonneg_r; [apply Z.pow_nonneg; lia|exact Hm].
Qed.

Lemma scaled_le_cancel (a b e : Z) : -2148 <= e -> scaled a e <= scaled b e -> a <= b.
Proof.
  intros He H. unfold scaled in H.
  apply Z.mul_le_mono_pos_r in H; [exact H|apply Z.pow_pos_nonneg; lia].
Qed.

Lemma scaled_le_mono (a b e : Z) : -2148 <= e -> a <= b -> scaled a e <= scaled b e.
Proof.
  intros He H. unfold scaled. apply Z.mul_le_mono_nonneg_r; [apply Z.pow_nonneg; lia|exact H].
Qed.

(** The exponent range and the mantissa size of a binary64 value; above the
    lowest exponent the mantissa has all its 53 bits. *)
Lemma bounded_digits (m : positive) (e : Z) :
  bounded prec emax m e = true ->
  -1074 <= e <= 971 /\ Zpos m < 2 ^ 53 /\ (-1074 < e -> 2 ^ 52 <= Zpos m).
Proof.
  intros Hb. destruct (bounded_inv m e Hb) as [Hc He]. rewrite fexp_eq in Hc.
  pose proof (digits2_pos_bounds m) as [L U].
  split; [lia|]. split.
  - eapply Z.lt_le_trans; [exact U|]. apply Z.pow_le_mono_r; lia.
  - intros H. eapply Z.le_trans; [|exact L]. apply Z.pow_le_mono_r; lia.
Qed.

(** ** Rounding against a representable magnitude *)

Section Magnitude.

Variables (M E m1 : Z) (mx : positive) (ex : Z).
Let e1 := fexp prec emax (Zdigits2 M + E).
Hypothesis HM : 0 < M.
Hypothesis HE : -2148 <= E.
Hypothesis Hk : E <= e1.
Hypothesis Hr : rounded M (e1 - E) m1.
Hypothesis Hb : bounded prec emax mx ex = true.

Lemma rounded_split :
  0 < 2 ^ (e1 - E) /\
  M = M / 2 ^ (e1 - E) * 2 ^ (e1 - E) + M mod 2 ^ (e1 - E) /\
  0 <= M mod 2 ^ (e1 - E) < 2 ^ (e1 - E) /\
  scaled m1 e1 = scaled (m1 * 2 ^ (e1 - E)) E /\ 0 <= M / 2 ^ (e1 - E).
Proof.
  assert (HT : 0 < 2 ^ (e1 - E)) by (apply Z.pow_pos_nonneg; lia).
  split; [exact HT|]. split; [|split; [|split]].
  - rewrite Z.mul_comm. apply Z.div_mod. lia.
  - apply Z.mod_pos_bound. exact HT.
  - rewrite scaled_shift by lia. f_equal. lia.
  - apply Z.div_pos; lia.
Qed.

Lemma e1_eq : e1 = Z.max (Zdigits2 M + E - 53) (-1074).
Proof. apply fexp_eq. Qed.

(** Rounding never passes a representable value that the exact value does
    not pass. *)
Lemma rounded_upper :
  scaled M E <= scaled (Zpos mx) ex -> scaled m1 e1 <= scaled (Zpos mx) ex.
Proof.
  intros H. destruct rounded_split as (HT & Hdiv & Hmod & Hs & Hq).
  destruct (bounded_digits mx ex Hb) as (Hex & Hmx & Hnorm).
  pose proof (Zdigits2_bounds M HM) as [DL DU]. pose proof e1_eq as He1.
  pose proof Hr as R. unfold rounded in R.
  set (T := 2 ^ (e1 - E)) in HT, Hdiv, Hmod, Hs, Hq, R.
  destruct (Z.le_gt_cases e1 ex) as [Hle|Hgt].
  - assert (Hx : scaled (Zpos mx) ex = scaled (Zpos mx * 2 ^ (ex - e1) * T) E).
    { unfold T. rewrite !scaled_shift by lia. f_equal. lia. }
    rewrite Hs, Hx in *.
    apply scaled_le_cancel in H; [|exact HE]. apply scaled_le_mono; [exact HE|].
    set (c := Zpos mx * 2 ^ (ex - e1)) in *.
    apply Z.mul_le_mono_nonneg_r; [lia|].
    destruct R as [->|[-> Hhalf]]; nia.
  - exfalso.
    assert (A : scaled (Zpos mx) ex < 2 ^ (53 + ex + 2148)) by (apply scaled_lt_pow; lia).
    assert (B : 2 ^ (Zdigits2 M - 1 + E + 2148) <= scaled M E).
    { apply scaled_ge_pow; pose proof (Zdigits2_pos M HM); lia. }
    assert (C : 2 ^ (53 + ex + 2148) <= 2 ^ (Zdigits2 M - 1 + E + 2148))
      by (apply Z.pow_le_mono_r; lia).
    lia.
Qed.

Lemma rounded_lower :
  scaled (Zpos mx) ex <= scaled M E -> scaled (Zpos mx) ex <= scaled m1 e1.
Proof.
  intros H. destruct rounded_split as (HT & Hdiv & Hmod & Hs & Hq).
  destruct (bounded_digits mx ex Hb) as (Hex & Hmx & Hnorm).
  pose proof (Zdigits2_bounds M HM) as [DL DU]. pose proof e1_eq as He1.
  pose proof Hr as R. unfold rounded in R.
  set (T := 2 ^ (e1 - E)) in HT, Hdiv, Hmod, Hs, Hq, R.
  assert (Hm1 : M / T <= m1) by (destruct R as [->|[-> _]]; lia).
  destruct (Z.le_gt_cases e1 ex) as [Hle|Hgt].
  - assert (Hx : scaled (Zpos mx) ex = scaled (Zpos mx * 2 ^ (ex - e1) * T) E).
    { unfold T. rewrite !scaled_shift by lia. f_equal. lia. }
    rewrite Hs, Hx in *.
    apply scaled_le_cancel in H; [|exact HE]. apply scaled_le_mono; [exact HE|].
    set (c := Zpos mx * 2 ^ (ex - e1)) in *.
    apply Z.mul_le_mono_nonneg_r; [lia|]. nia.
  - assert (A : scaled (Zpos mx) ex < 2 ^ (53 + ex + 2148)) by (apply scaled_lt_pow; lia).
    assert (Hq52 : 2 ^ 52 <= M / T).
    { apply Z.div_le_lower_bound; [exact HT|]. unfold T. rewrite <- Z.pow_add_r by lia.
      eapply Z.le_trans; [|exact DL]. apply Z.pow_le_mono_r; lia. }
    assert (B : 2 ^ (52 + e1 + 2148) <= scaled m1 e1) by (apply scaled_ge_pow; lia).
    assert (C : 2 ^ (53 + ex + 2148) <= 2 ^ (52 + e1 + 2148))
      by (apply Z.pow_le_mono_r; lia).
    lia.
Qed.

End Magnitude.

(** ** The order of binary64 values is the order of their values *)

Lemma compare_canonical (m1 m2 : positive) (e1 e2 : Z) :
  bounded prec emax m1 e1 = true -> bounded prec emax m2 e2 = true ->
  match e1 ?= e2 with
  | Lt => Lt
  | Gt => Gt
  | Eq => (m1 ?= m2)%positive
  end = (scaled (Zpos m1) e1 ?= scaled (Zpos m2) e2).
Proof.
  intros B1 B2.
  destruct (bounded_digits m1 e1 B1) as (E1 & U1 & N1).
  destruct (bounded_digits m2 e2 B2) as (E2 & U2 & N2).
  destruct (Z.compare_spec e1 e2) as [Heq|Hlt|Hgt]; symmetry.
  - subst e2. unfold scaled.
    assert (P : 0 < 2 ^ (e1 + 2148)) by (apply Z.pow_pos_nonneg; lia).
    destruct (Pos.compare_spec m1 m2) as [H|H|H].
    + subst m2. apply Z.compare_refl.
    + apply Z.compare_lt_iff. apply Z.mul_lt_mono_pos_r; lia.
    + apply Z.compare_gt_iff. apply Z.mul_lt_mono_pos_r; lia.
  - apply Z.compare_lt_iff.
    assert (A : scaled (Zpos m1) e1 < 2 ^ (53 + e1 + 2148)) by (apply scaled_lt_pow; lia).
    assert (B : 2 ^ (52 + e2 + 2148) <= scaled (Zpos m2) e2) by (apply scaled_ge_pow; lia).
    assert (C : 2 ^ (53 + e1 + 2148) <= 2 ^ (52 + e2 + 2148)) by (apply Z.pow_le_mono_r; lia).
    lia.
  - apply Z.compare_gt_iff.
    assert (A : scaled (Zpos m2) e2 < 2 ^ (53 + e2 + 2148)) by (apply scaled_lt_pow; lia).
    assert (B : 2 ^ (52 + e1 + 2148) <= scaled (Zpos m1) e1) by (apply scaled_ge_pow; lia).
    assert (C : 2 ^ (53 + e2 + 2148) <= 2 ^ (52 + e1 + 2148)) by (apply Z.pow_le_mono_r; lia).
    lia.
Qed.

Lemma units_finite_pos (m : positive) (e : Z) :
  bounded prec emax m e = true -> 0 < scaled (Zpos m) e < 2 ^ (1024 + 2148).
Proof.
  intros B. destruct (bounded_digits m e B) as (E1 & U1 & _). split.
  - apply scaled_pos; lia.
  - eapply Z.lt_le_trans; [apply (scaled_lt_pow _ _ 53); lia|].
    apply Z.pow_le_mono_r; lia.
Qed.

(** On finite numbers [SFcompare] compares the values. *)
Lemma SFcompare_units (x y : number) :
  is_number x -> is_number y -> finite x = true -> finite y = true ->
  SFcompare x y = Some (units x ?= units y).
Proof.
  intros Vx Vy Fx Fy.
  destruct x as [sx|sx| |sx mx ex], y as [sy|sy| |sy my ey]; try discriminate;
    cbn [SFcompare units].
  - reflexivity.
  - pose proof (units_finite_pos my ey Vy) as [P _].
    destruct sy; cbn [cond_Zopp]; f_equal; symmetry;
      [apply Z.compare_gt_iff|apply Z.compare_lt_iff]; lia.
  - pose proof (units_finite_pos mx ex Vx) as [P _].
    destruct sx; cbn [cond_Zopp]; f_equal; symmetry;
      [apply Z.compare_lt_iff|apply Z.compare_gt_iff]; lia.
  - pose proof (units_finite_pos mx ex Vx) as [Px _].
    pose proof (units_finite_pos my ey Vy) as [Py _].
    rewrite compare_cont_Eq.
    destruct sx, sy; cbn [cond_Zopp]; f_equal.
    + rewrite Z.compare_opp, <- (compare_canonical my mx ey ex Vy Vx).
      rewrite (Z.compare_antisym ex ey), (Pos.compare_antisym mx my).
      destruct (ex ?= ey), (mx ?= my)%positive; reflexivity.
    + symmetry. apply Z.compare_lt_iff. lia.
    + symmetry. apply Z.compare_gt_iff. lia.
    + apply compare_canonical; assumption.
Qed.

Lemma le_units (x y : number) :
  is_number x -> is_number y -> finite x = true -> finite y = true ->
  le x y = true <-> units x <= units y.
Proof.
  intros Vx Vy Fx Fy. unfold le, SFleb. rewrite (SFcompare_units x y Vx Vy Fx Fy).
  destruct (Z.compare_spec (units x) (units y)); split; intros; try lia; try discriminate;
    reflexivity.
Qed.

Lemma lt_units (x y : number) :
  is_number x -> is_number y -> finite x = true -> finite y = true ->
  lt x y = true <-> units x < units y.
Proof.
  intros Vx Vy Fx Fy. unfold lt, SFltb. rewrite (SFcompare_units x y Vx Vy Fx Fy).
  destruct (Z.compare_spec (units x) (units y)); split; intros; try lia; try discriminate;
    reflexivity.
Qed.

Lemma units_bound (x : number) :
  is_number x -> - 2 ^ (1024 + 2148) < units x < 2 ^ (1024 + 2148).
Proof.
  intros V. destruct x as [s|s| |s m e]; cbn [units]; try (cbn; lia).
  pose proof (units_finite_pos m e V). destruct s; cbn [cond_Zopp]; lia.
Qed.

(** ** Rounding is monotone against representable values *)

Section Monotone.

Variables (s : bool) (M E : Z).
Hypothesis HM : 0 < M.
Hypothesis HE : -2148 <= E.
Hypothesis Hk : E <= fexp prec emax (Zdigits2 M + E).

(** The two bounds of [Magnitude] with the sign of the result. *)
Lemma rounded_signed (m1 : Z) (x : number) :
  rounded M (fexp prec emax (Zdigits2 M + E) - E) m1 ->
  is_number x ->
  (cond_Zopp s (scaled M E) <= units x ->
   cond_Zopp s (scaled m1 (fexp prec emax (Zdigits2 M + E))) <= units x) /\
  (units x <= cond_Zopp s (scaled M E) ->
   units x <= cond_Zopp s (scaled m1 (fexp prec emax (Zdigits2 M + E)))).
Proof.
  intros Hr Vx.
  pose proof (scaled_pos M E HM HE) as PM.
  assert (P1 : 0 <= scaled m1 (fexp prec emax (Zdigits2 M + E))).
  { unfold scaled. apply Z.mul_nonneg_nonneg; [|apply Z.pow_nonneg; lia].
    assert (0 < 2 ^ (fexp prec emax (Zdigits2 M + E) - E)) by (apply Z.pow_pos_nonneg; lia).
    assert (0 <= M / 2 ^ (fexp prec emax (Zdigits2 M + E) - E)) by (apply Z.div_pos; lia).
    destruct Hr as [->|[-> _]]; lia. }
  destruct x as [sx|sx| |sx mx ex]; cbn [units]; try (destruct s; cbn [cond_Zopp]; lia).
  pose proof (units_finite_pos mx ex Vx) as [Px _].
  pose proof (rounded_upper M E m1 mx ex HM HE Hk Hr Vx) as U.
  pose proof (rounded_lower M E m1 mx ex HM HE Hk Hr Vx) as L.
  destruct s, sx; cbn [cond_Zopp]; lia.
Qed.

(** The result is a number; it holds the rounded mantissa, or it is an
    infinity when that is [2^1024] or more. *)
Lemma round_aux_finite_units :
  let r := binary_round_aux prec emax s M E loc_Exact in
  is_number r /\
  exists m1, rounded M (fexp prec emax (Zdigits2 M + E) - E) m1 /\
    ((finite r = true /\
      units r = cond_Zopp s (scaled m1 (fexp prec emax (Zdigits2 M + E)))) \/
     (r = S754_infinity s /\
      2 ^ (1024 + 2148) <= scaled m1 (fexp prec emax (Zdigits2 M + E)))).
Proof.
  intros r. split; [apply binary_round_aux_valid; lia|].
  destruct (round_aux_spec s M E HM Hk) as (m1 & Hr & Hres). cbv zeta in Hr, Hres.
  exists m1. split; [exact Hr|]. fold r in Hres.
  set (e1 := fexp prec emax (Zdigits2 M + E)) in *.
  destruct r as [s'|s'| |s' m2 e2].
  - destruct Hres as [-> ->]. left. split; [reflexivity|].
    cbn [units]. unfold scaled. destruct s; reflexivity.
  - destruct Hres as (-> & m2 & e2 & H1 & H2 & H3 & H4). right. split; [reflexivity|].
    rewrite <- H3, scaled_shift by lia. replace (e1 + (e2 - e1)) with e2 by lia.
    eapply Z.le_trans; [|apply (scaled_ge_pow _ _ 52); [lia|lia|exact H4]].
    apply Z.pow_le_mono_r; lia.
  - contradiction.
  - destruct Hres as (-> & B & H2 & H3). left. split; [reflexivity|].
    cbn [units]. f_equal. rewrite <- H3, scaled_shift by lia. f_equal. lia.
Qed.

Lemma round_aux_le_upper (x : number) :
  is_number x -> finite x = true ->
  cond_Zopp s (scaled M E) <= units x ->
  le (binary_round_aux prec emax s M E loc_Exact) x = true.
Proof.
  intros Vx Fx H. destruct round_aux_finite_units as (Vr & m1 & Hr & Hres).
  destruct (rounded_signed m1 x Hr Vx) as [U _]. specialize (U H).
  destruct Hres as [[Fr Ev]|[Er Big]].
  - apply le_units; try assumption. rewrite Ev. exact U.
  - rewrite Er. pose proof (units_bound x Vx) as Bx.
    destruct s; cbn [cond_Zopp] in U; [|lia].
    destruct x as [[]|[]| |[] mx ex]; try discriminate; reflexivity.
Qed.

Lemma round_aux_le_lower (x : number) :
  is_number x -> finite x = true ->
  units x <= cond_Zopp s (scaled M E) ->
  le x (binary_round_aux prec emax s M E loc_Exact) = true.
Proof.
  intros Vx Fx H. destruct round_aux_finite_units as (Vr & m1 & Hr & Hres).
  destruct (rounded_signed m1 x Hr Vx) as [_ L]. specialize (L H).
  destruct Hres as [[Fr Ev]|[Er Big]].
  - apply le_units; try assumption. rewrite Ev. exact L.
  - rewrite Er. pose proof (units_bound x Vx) as Bx.
    destruct s; cbn [cond_Zopp] in L; [lia|].
    destruct x as [[]|[]| |[] mx ex]; try discriminate; reflexivity.
Qed.

End Monotone.

(** ** The operations *)

Lemma scaled_add (a b e : Z) : scaled (a + b) e = scaled a e + scaled b e.
Proof. unfold scaled. ring. Qed.

Lemma scaled_sub (a b e : Z) : scaled (a - b) e = scaled a e - scaled b e.
Proof. unfold scaled. ring. Qed.

Lemma scaled_opp (a e : Z) : scaled (- a) e = - scaled a e.
Proof. unfold scaled. ring. Qed.

Lemma scaled_cond_Zopp (s : bool) (a e : Z) :
  scaled (cond_Zopp s a) e = cond_Zopp s (scaled a e).
Proof. destruct s; cbn [cond_Zopp]; [apply scaled_opp|reflexivity]. Qed.

(** *** Products *)

Lemma mul_exponent (mx my : positive) (ex ey : Z) :
  bounded prec emax mx ex = true -> bounded prec emax my ey = true ->
  ex + ey <= fexp prec emax (Zdigits2 (Zpos (mx * my)) + (ex + ey)).
Proof.
  intros Bx By. rewrite fexp_eq.
  destruct (bounded_digits mx ex Bx) as (Ex & Ux & Nx).
  destruct (bounded_digits my ey By) as (Ey & Uy & Ny).
  destruct (Z.eq_dec ex (-1074)) as [Hx|Hx], (Z.eq_dec ey (-1074)) as [Hy|Hy]; try lia.
  - assert (52 < Zdigits2 (Zpos (mx * my))); [|lia].
    apply Zdigits2_ge. rewrite Pos2Z.inj_mul. specialize (Ny ltac:(lia)). nia.
  - assert (52 < Zdigits2 (Zpos (mx * my))); [|lia].
    apply Zdigits2_ge. rewrite Pos2Z.inj_mul. specialize (Nx ltac:(lia)). nia.
  - assert (52 < Zdigits2 (Zpos (mx * my))); [|lia].
    apply Zdigits2_ge. rewrite Pos2Z.inj_mul. specialize (Nx ltac:(lia)). nia.
Qed.

Lemma mul_scaled (mx my : positive) (ex ey : Z) :
  -1074 <= ex -> -1074 <= ey ->
  scaled (Zpos (mx * my)) (ex + ey) * 2 ^ 2148 = scaled (Zpos mx) ex * scaled (Zpos my) ey.
Proof.
  intros Hx Hy. unfold scaled. rewrite Pos2Z.inj_mul.
  replace (ex + ey + 2148) with ((ex + 1074) + (ey + 1074)) by lia.
  replace (ex + 2148) with ((ex + 1074) + 1074) by lia.
  replace (ey + 2148) with ((ey + 1074) + 1074) by lia.
  rewrite (Z.pow_add_r 2 (ex + 1074) (ey + 1074)) by lia.
  rewrite (Z.pow_add_r 2 (ex + 1074) 1074), (Z.pow_add_r 2 (ey + 1074) 1074) by lia.
  replace (2 ^ 2148) with (2 ^ 1074 * 2 ^ 1074) by (rewrite <- Z.pow_add_r by lia; reflexivity).
  generalize (2 ^ 1074). intros c. ring.
Qed.

Lemma mul_valid (x y : number) : is_number x -> is_number y -> is_number (mul x y).
Proof.
  intros Vx Vy. destruct x as [sx|sx| |sx mx ex], y as [sy|sy| |sy my ey]; try reflexivity.
  unfold mul. cbn [SFmul]. apply binary_round_aux_valid; [lia|].
  apply mul_exponent; assumption.
Qed.

(** A product whose exact value is at most [b] rounds to at most [b], and
    likewise from below. *)
Lemma mul_le_upper (x y b : number) :
  is_number x -> is_number y -> is_number b ->
  finite x = true -> finite y = true -> finite b = true ->
  units x * units y <= units b * 2 ^ 2148 -> le (mul x y) b = true.
Proof.
  intros Vx Vy Vb Fx Fy Fb H.
  assert (Z0 : forall s, le (S754_zero s) b = true <-> 0 <= units b).
  { intros s. apply (le_units (S754_zero s) b); auto; reflexivity. }
  destruct x as [sx|sx| |sx mx ex], y as [sy|sy| |sy my ey]; try discriminate;
    unfold mul; cbn [SFmul]; cbn [units] in H; try (apply Z0; lia).
  destruct (bounded_digits mx ex Vx) as (Ex & _). destruct (bounded_digits my ey Vy) as (Ey & _).
  apply round_aux_le_upper; try assumption; try lia.
  - apply mul_exponent; assumption.
  - assert (E : cond_Zopp (xorb sx sy) (scaled (Zpos (mx * my)) (ex + ey)) * 2 ^ 2148
                = cond_Zopp sx (scaled (Zpos mx) ex) * cond_Zopp sy (scaled (Zpos my) ey)).
    { pose proof (mul_scaled mx my ex ey ltac:(lia) ltac:(lia)) as E0.
      destruct sx, sy; cbn [xorb cond_Zopp]; lia. }
    lia.
Qed.

Lemma mul_le_lower (x y b : number) :
  is_number x -> is_number y -> is_number b ->
  finite x = true -> finite y = true -> finite b = true ->
  units b * 2 ^ 2148 <= units x * units y -> le b (mul x y) = true.
Proof.
  intros Vx Vy Vb Fx Fy Fb H.
  assert (Z0 : forall s, le b (S754_zero s) = true <-> units b <= 0).
  { intros s. apply (le_units b (S754_zero s)); auto; reflexivity. }
  destruct x as [sx|sx| |sx mx ex], y as [sy|sy| |sy my ey]; try discriminate;
    unfold mul; cbn [SFmul]; cbn [units] in H; try (apply Z0; lia).
  destruct (bounded_digits mx ex Vx) as (Ex & _). destruct (bounded_digits my ey Vy) as (Ey & _).
  apply round_aux_le_lower; try assumption; try lia.
  - apply mul_exponent; assumption.
  - assert (E : cond_Zopp (xorb sx sy) (scaled (Zpos (mx * my)) (ex + ey)) * 2 ^ 2148
                = cond_Zopp sx (scaled (Zpos mx) ex) * cond_Zopp sy (scaled (Zpos my) ey)).
    { pose proof (mul_scaled mx my ex ey ltac:(lia) ltac:(lia)) as E0.
      destruct sx, sy; cbn [xorb cond_Zopp]; lia. }
    lia.
Qed.

(** *** Sums and differences *)

Lemma shl_align_scaled (m : positive) (e e' : Z) :
  -2148 <= e -> -2148 <= e' ->
  scaled (Zpos (fst (shl_align m e e'))) (snd (shl_align m e e')) = scaled (Zpos m) e.
Proof.
  intros He He'. unfold shl_align. destruct (e' - e) as [|d|d] eqn:Hd; cbn [fst snd]; try reflexivity.
  rewrite Pos2Nat.inj_iter.
  change (scaled (Zpos (Nat.iter (Pos.to_nat d) xO m)) e' = scaled (Zpos m) e).
  rewrite Zpos_iter_double, scaled_shift, positive_nat_Z by lia. f_equal. lia.
Qed.

Lemma shl_align_snd (m : positive) (e e' : Z) :
  -2148 <= e -> -2148 <= e' -> -2148 <= snd (shl_align m e e').
Proof.
  intros He He'. unfold shl_align. destruct (e' - e); cbn [snd]; lia.
Qed.

Lemma aligned_units (s : bool) (m : positive) (e ez : Z) :
  -2148 <= ez -> ez <= e ->
  scaled (cond_Zopp s (Zpos (fst (shl_align m e ez)))) ez = cond_Zopp s (scaled (Zpos m) e).
Proof.
  intros Hz He. rewrite scaled_cond_Zopp. f_equal.
  rewrite shl_align_value by exact He. rewrite scaled_shift by lia. f_equal. lia.
Qed.

Lemma binary_round_le_upper (s : bool) (p : positive) (e : Z) (x : number) :
  -1074 <= e -> is_number x -> finite x = true ->
  cond_Zopp s (scaled (Zpos p) e) <= units x ->
  le (binary_round prec emax s p e) x = true.
Proof.
  intros He Vx Fx H. unfold binary_round.
  pose proof (shl_align_fexp p e) as [A1 A2]. cbv zeta in A1, A2. specialize (A2 He).
  pose proof (shl_align_scaled p e (fexp prec emax (Zpos (digits2_pos p) + e))) as A3.
  rewrite fexp_eq in A3 at 1 2. specialize (A3 ltac:(lia) ltac:(lia)).
  destruct (shl_align p e _) as [mz ez]. cbn [fst snd] in *.
  apply round_aux_le_upper; try assumption; try lia. rewrite A3. exact H.
Qed.

Lemma binary_round_le_lower (s : bool) (p : positive) (e : Z) (x : number) :
  -1074 <= e -> is_number x -> finite x = true ->
  units x <= cond_Zopp s (scaled (Zpos p) e) ->
  le x (binary_round prec emax s p e) = true.
Proof.
  intros He Vx Fx H. unfold binary_round.
  pose proof (shl_align_fexp p e) as [A1 A2]. cbv zeta in A1, A2. specialize (A2 He).
  pose proof (shl_align_scaled p e (fexp prec emax (Zpos (digits2_pos p) + e))) as A3.
  rewrite fexp_eq in A3 at 1 2. specialize (A3 ltac:(lia) ltac:(lia)).
  destruct (shl_align p e _) as [mz ez]. cbn [fst snd] in *.
  apply round_aux_le_lower; try assumption; try lia. rewrite A3. exact H.
Qed.

Lemma normalize_le_upper (z e : Z) (x : number) :
  -1074 <= e -> is_number x -> finite x = true ->
  scaled z e <= units x -> le (binary_normalize prec emax z e false) x = true.
Proof.
  intros He Vx Fx H. destruct z as [|p|p]; cbn [binary_normalize].
  - apply (le_units (S754_zero false) x); auto; try reflexivity.
  - apply binary_round_le_upper; assumption.
  - apply binary_round_le_upper; try assumption. cbn [cond_Zopp].
    rewrite <- scaled_opp. exact H.
Qed.

Lemma normalize_le_lower (z e : Z) (x : number) :
  -1074 <= e -> is_number x -> finite x = true ->
  units x <= scaled z e -> le x (binary_normalize prec emax z e false) = true.
Proof.
  intros He Vx Fx H. destruct z as [|p|p]; cbn [binary_normalize].
  - apply (le_units x (S754_zero false)); auto; try reflexivity.
  - apply binary_round_le_lower; assumption.
  - apply binary_round_le_lower; try assumption. cbn [cond_Zopp].
    rewrite <- scaled_opp. exact H.
Qed.

Lemma add_valid (x y : number) : is_number x -> is_number y -> is_number (add x y).
Proof.
  intros Hx Hy. destruct x as [sx|sx| |sx mx ex], y as [sy|sy| |sy my ey];
    try (destruct sx, sy; first [reflexivity|assumption]);
    try reflexivity; try assumption.
  unfold add. cbn [SFadd]. apply binary_normalize_valid.
Qed.

(** A sum whose exact value is at most [b] rounds to at most [b], and
    likewise from below; the same for differences. *)
Lemma add_le_upper (x y b : number) :
  is_number x -> is_number y -> is_number b ->
  finite x = true -> finite y = true -> finite b = true ->
  units x + units y <= units b -> le (add x y) b = true.
Proof.
  intros Vx Vy Vb Fx Fy Fb H.
  destruct x as [sx|sx| |sx mx ex], y as [sy|sy| |sy my ey]; try discriminate.
  - apply le_units; auto; [destruct sx, sy; reflexivity..|].
    destruct sx, sy; exact H.
  - unfold add. cbn [SFadd]. apply le_units; auto.
  - unfold add. cbn [SFadd]. apply le_units; auto. cbn [units] in *. lia.
  - destruct (bounded_digits mx ex Vx) as (Ex & _). destruct (bounded_digits my ey Vy) as (Ey & _).
    unfold add. cbn [SFadd]. apply normalize_le_upper; try assumption; try lia.
    rewrite scaled_add, !aligned_units by lia. exact H.
Qed.

Lemma add_le_lower (x y b : number) :
  is_number x -> is_number y -> is_number b ->
  finite x = true -> finite y = true -> finite b = true ->
  units b <= units x + units y -> le b (add x y) = true.
Proof.
  intros Vx Vy Vb Fx Fy Fb H.
  destruct x as [sx|sx| |sx mx ex], y as [sy|sy| |sy my ey]; try discriminate.
  - apply le_units; auto; [destruct sx, sy; reflexivity..|].
    destruct sx, sy; exact H.
  - unfold add. cbn [SFadd]. apply le_units; auto.
  - unfold add. cbn [SFadd]. apply le_units; auto. cbn [units] in *. lia.
  - destruct (bounded_digits mx ex Vx) as (Ex & _). destruct (bounded_digits my ey Vy) as (Ey & _).
    unfold add. cbn [SFadd]. apply normalize_le_lower; try assumption; try lia.
    rewrite scaled_add, !aligned_units by lia. exact H.
Qed.

Lemma units_opp (x : number) : units (SFopp x) = - units x.
Proof. destruct x as [s|s| |s m e]; cbn [SFopp units]; try reflexivity. destruct s; cbn; lia. Qed.

Lemma sub_le_upper (x y b : number) :
  is_number x -> is_number y -> is_number b ->
  finite x = true -> finite y = true -> finite b = true ->
  units x - units y <= units b -> le (sub x y) b = true.
Proof.
  intros Vx Vy Vb Fx Fy Fb H.
  destruct x as [sx|sx| |sx mx ex], y as [sy|sy| |sy my ey]; try discriminate.
  - apply le_units; auto; [destruct sx, sy; reflexivity..|].
    destruct sx, sy; exact H.
  - unfold sub. cbn [SFsub]. apply le_units; auto.
    cbn [units] in *. destruct sy; cbn [negb cond_Zopp] in *; lia.
  - unfold sub. cbn [SFsub]. apply le_units; auto. cbn [units] in *. lia.
  - destruct (bounded_digits mx ex Vx) as (Ex & _). destruct (bounded_digits my ey Vy) as (Ey & _).
    unfold sub. cbn [SFsub]. apply normalize_le_upper; try assumption; try lia.
    rewrite scaled_sub, !aligned_units by lia. exact H.
Qed.

Lemma sub_le_lower (x y b : number) :
  is_number x -> is_number y -> is_number b ->
  finite x = true -> finite y = true -> finite b = true ->
  units b <= units x - units y -> le b (sub x y) = true.
Proof.
  intros Vx Vy Vb Fx Fy Fb H.
  destruct x as [sx|sx| |sx mx ex], y as [sy|sy| |sy my ey]; try discriminate.
  - apply le_units; auto; [destruct sx, sy; reflexivity..|].
    destruct sx, sy; exact H.
  - unfold sub. cbn [SFsub]. apply le_units; auto.
    cbn [units] in *. destruct sy; cbn [negb cond_Zopp] in *; lia.
  - unfold sub. cbn [SFsub]. apply le_units; auto. cbn [units] in *. lia.
  - destruct (bounded_digits mx ex Vx) as (Ex & _). destruct (bounded_digits my ey Vy) as (Ey & _).
    unfold sub. cbn [SFsub]. apply normalize_le_lower; try assumption; try lia.
    rewrite scaled_sub, !aligned_units by lia. exact H.
Qed.

(** *** Products with a draw *)

Lemma units_one : units one = 2 ^ 2148.
Proof. reflexivity. Qed.

(** A draw is at most [1 - 2^-53]. *)
Lemma unit_draw_bound (u : number) :
  unit_draw u -> 0 <= units u <= 2 ^ 2148 - 2 ^ 2095.
Proof.
  intros (Vu & Hle & Hlt).
  assert (Fu : finite u = true) by (destruct u as [[]|[]| |]; try discriminate; reflexivity).
  apply (le_units zero u) in Hle; [|reflexivity|assumption|reflexivity|assumption].
  apply (lt_units u one) in Hlt; [|assumption|reflexivity|assumption|reflexivity].
  rewrite units_one in Hlt. change (units zero) with 0 in Hle.
  split; [exact Hle|].
  destruct u as [s|s| |s m e]; try discriminate; cbn [units] in *;
    try (assert (2 ^ 2095 <= 2 ^ 2148) by (apply Z.pow_le_mono_r; lia); lia).
  destruct (bounded_digits m e Vu) as (He & Um & _).
  pose proof (units_finite_pos m e Vu) as [Pm _].
  destruct s; cbn [cond_Zopp] in *; [lia|].
  assert (E2 : 2 ^ 2148 = 2 ^ 53 * 2 ^ 2095) by (rewrite <- Z.pow_add_r by lia; reflexivity).
  assert (P : 0 < 2 ^ 2095) by (apply Z.pow_pos_nonneg; lia).
  destruct (Z.le_gt_cases (-53) e) as [Hbig|Hsmall].
  + assert (Es : scaled (Zpos m) e = Zpos m * 2 ^ (e + 53) * 2 ^ 2095).
    { unfold scaled. replace (e + 2148) with ((e + 53) + 2095) by lia.
      rewrite (Z.pow_add_r 2 (e + 53) 2095) by lia. ring. }
    rewrite Es in *. set (c := Zpos m * 2 ^ (e + 53)) in *. nia.
  + assert (A : scaled (Zpos m) e < 2 ^ (53 + e + 2148)) by (apply scaled_lt_pow; lia).
    assert (B : 2 ^ (53 + e + 2148) <= 2 ^ 2147) by (apply Z.pow_le_mono_r; lia).
    assert (C : 2 ^ 2148 = 2 * 2 ^ 2147) by (rewrite <- Z.pow_succ_r by lia; reflexivity).
    assert (D : 2 ^ 2095 <= 2 ^ 2147) by (apply Z.pow_le_mono_r; lia).
    lia.
Qed.

(** The rounded product of a value below [1 - 2^-53] and a normal value [w]
    above the smallest binade stays below [w]. *)
Lemma rounded_product_lt (mu mw : positive) (eu ew m1 : Z) :
  bounded prec emax mu eu = true -> bounded prec emax mw ew = true ->
  -1074 < ew -> scaled (Zpos mu) eu <= 2 ^ 2148 - 2 ^ 2095 ->
  rounded (Zpos (mu * mw)) (fexp prec emax (Zdigits2 (Zpos (mu * mw)) + (eu + ew)) - (eu + ew)) m1 ->
  scaled m1 (fexp prec emax (Zdigits2 (Zpos (mu * mw)) + (eu + ew))) < scaled (Zpos mw) ew.
Proof.
  intros Bu Bw Hew HU Hr.
  destruct (bounded_digits mu eu Bu) as (Eu & Uu & _).
  destruct (bounded_digits mw ew Bw) as (Ew & Uw & Nw). specialize (Nw Hew).
  pose proof (mul_exponent mu mw eu ew Bu Bw) as Hk.
  pose proof (mul_scaled mu mw eu ew ltac:(lia) ltac:(lia)) as Hprod.
  set (M := Zpos (mu * mw)) in *. set (E := eu + ew) in *.
  assert (HM : 0 < M) by (unfold M; lia). assert (HE : -2148 <= E) by (unfold E; lia).
  destruct (rounded_split M E m1 HM HE Hk) as (HT & Hdiv & Hmod & Hs & Hq).
  pose proof (e1_eq M E) as He1. pose proof (Zdigits2_bounds M HM) as [DL DU].
  pose proof (Zdigits2_pos M HM) as Dpos.
  set (e1 := fexp prec emax (Zdigits2 M + E)) in *.
  unfold rounded in Hr.
  set (T := 2 ^ (e1 - E)) in HT, Hdiv, Hmod, Hs, Hq, Hr.
  set (W := scaled (Zpos mw) ew) in *. set (sM := scaled M E) in *.
  pose proof (units_finite_pos mw ew Bw) as [PW _]. fold W in PW.
  (* the exact product is at most (1 - 2^-53) W *)
  assert (F1 : sM * 2 ^ 53 <= (2 ^ 53 - 1) * W).
  { assert (E2 : 2 ^ 2148 = 2 ^ 53 * 2 ^ 2095) by (rewrite <- Z.pow_add_r by lia; reflexivity).
    assert (P : 0 < 2 ^ 2095) by (apply Z.pow_pos_nonneg; lia).
    assert (HU' : scaled (Zpos mu) eu <= (2 ^ 53 - 1) * 2 ^ 2095) by lia.
    apply (Z.mul_le_mono_pos_r _ _ (2 ^ 2095) P).
    replace (sM * 2 ^ 53 * 2 ^ 2095) with (sM * 2 ^ 2148) by (rewrite E2; ring).
    rewrite Hprod.
    replace ((2 ^ 53 - 1) * W * 2 ^ 2095) with ((2 ^ 53 - 1) * 2 ^ 2095 * W) by ring.
    apply Z.mul_le_mono_nonneg_r; lia. }
  assert (F2 : sM < W) by lia.
  (* hence the canonical exponent of the product is at most that of w *)
  assert (F3 : e1 <= ew).
  { assert (A : 2 ^ (Zdigits2 M - 1 + E + 2148) <= sM) by (apply scaled_ge_pow; lia).
    assert (B : W < 2 ^ (53 + ew + 2148)) by (apply scaled_lt_pow; lia).
    destruct (Z.le_gt_cases (Zdigits2 M + E - 53) ew) as [|G]; [lia|exfalso].
    assert (2 ^ (53 + ew + 2148) <= 2 ^ (Zdigits2 M - 1 + E + 2148))
      by (apply Z.pow_le_mono_r; lia).
    lia. }
  set (P := 2 ^ (E + 2148)) in *.
  assert (HP : 0 < P) by (apply Z.pow_pos_nonneg; lia).
  assert (EsM : sM = M * P) by reflexivity.
  assert (Es1 : scaled (m1 * T) E = m1 * T * P) by reflexivity.
  rewrite Hs, Es1.
  destruct Hr as [->|[-> Hhalf]].
  - assert (M / T * T * P <= M * P) by (apply Z.mul_le_mono_nonneg_r; lia). lia.
  - set (q := M / T) in *. set (G := T * P).
    assert (HG : G = 2 ^ (e1 + 2148)).
    { unfold G, T, P. rewrite <- Z.pow_add_r by lia. f_equal. lia. }
    assert (S1 : 2 * ((q + 1) * T * P) <= 2 * sM + G).
    { rewrite EsM. unfold G.
      assert ((2 * q * T + T) * P <= 2 * M * P) by (apply Z.mul_le_mono_nonneg_r; lia).
      lia. }
    assert (S2 : 2 ^ 52 * G < W).
    { set (Gw := 2 ^ (ew + 2148)).
      assert (PGw : 0 < Gw) by (apply Z.pow_pos_nonneg; lia).
      assert (EW : W = Zpos mw * Gw) by reflexivity.
      assert (PG : 0 < G) by (rewrite HG; apply Z.pow_pos_nonneg; lia).
      destruct (Z.eq_dec e1 ew) as [Heq|Hne].
      - assert (G = Gw) by (rewrite HG; unfold Gw; f_equal; lia).
        assert (2 ^ 52 < Zpos mw).
        { destruct (Z.eq_dec (Zpos mw) (2 ^ 52)) as [Hm|Hm]; [exfalso|lia].
          assert (A : 2 ^ (Zdigits2 M - 1 + E + 2148) <= sM) by (apply scaled_ge_pow; lia).
          assert (B : W = 2 ^ (52 + ew + 2148)).
          { rewrite EW, Hm. unfold Gw. rewrite <- Z.pow_add_r by lia. f_equal. lia. }
          destruct (Z.le_gt_cases (Zdigits2 M + E) (52 + ew)) as [|G1]; [lia|].
          assert (2 ^ (52 + ew + 2148) <= 2 ^ (Zdigits2 M - 1 + E + 2148))
            by (apply Z.pow_le_mono_r; lia).
          lia. }
        nia.
      - assert (2 * G <= Gw).
        { rewrite HG. unfold Gw. rewrite <- Z.pow_succ_r by lia. apply Z.pow_le_mono_r; lia. }
        assert (2 ^ 52 * Gw <= W) by (rewrite EW; apply Z.mul_le_mono_nonneg_r; lia).
        lia. }
    lia.
Qed.

(** A draw times a normal value [w] above the smallest binade is a number
    strictly below [w]. *)
Lemma mul_unit_lt (u : number) (mw : positive) (ew : Z) :
  unit_draw u -> is_number (S754_finite false mw ew) -> -1074 < ew ->
  lt (mul u (S754_finite false mw ew)) (S754_finite false mw ew) = true.
Proof.
  intros Hu Vw Hew. pose proof (unit_draw_bound u Hu) as [U0 U1].
  destruct Hu as (Vu & Hle & Hlt).
  destruct u as [s|s| |s mu eu]; try discriminate; try (destruct s; discriminate).
  - destruct s; reflexivity.
  - destruct s; [discriminate|]. cbn [units cond_Zopp] in U0, U1.
    destruct (bounded_digits mu eu Vu) as (Eu & _).
    destruct (bounded_digits mw ew Vw) as (Ew & _).
    pose proof (mul_exponent mu mw eu ew Vu Vw) as Hk.
    unfold mul. cbn [SFmul xorb].
    destruct (round_aux_finite_units false (Zpos (mu * mw)) (eu + ew)
                ltac:(lia) ltac:(lia) Hk) as (Vr & m1 & Hr & Hres).
    pose proof (rounded_product_lt mu mw eu ew m1 Vu Vw Hew U1 Hr) as Hlt1.
    destruct Hres as [[Fr Ev]|[Er Big]].
    + apply lt_units; try assumption; try reflexivity.
      rewrite Ev. cbn [cond_Zopp units]. exact Hlt1.
    + exfalso. pose proof (units_finite_pos mw ew Vw). lia.
Qed.

(** *** Differences that are rounded are normal *)

Lemma rounded_exact (M m1 : Z) : rounded M 0 m1 -> m1 = M.
Proof.
  unfold rounded. rewrite Z.pow_0_r, Z.div_1_r, Z.mod_1_r. intros [H|[_ H]]; lia.
Qed.

(** A result in the lowest binade is exact. *)
Lemma round_aux_exact_or_normal (s : bool) (M E : Z) :
  0 < M -> -1074 <= E -> E <= fexp prec emax (Zdigits2 M + E) ->
  match binary_round_aux prec emax s M E loc_Exact with
  | S754_finite s' m e => cond_Zopp s' (scaled (Zpos m) e) = cond_Zopp s (scaled M E) \/ -1074 < e
  | S754_zero _ => False
  | _ => True
  end.
Proof.
  intros HM HE Hk.
  pose proof (binary_round_aux_nonzero s M E loc_Exact HM Hk HE) as Hnz.
  destruct (round_aux_spec s M E HM Hk) as (m1 & Hr & Hres). cbv zeta in Hr, Hres.
  destruct (binary_round_aux prec emax s M E loc_Exact) as [s'|s'| |s' m e]; try exact I.
  - apply (Hnz s'). reflexivity.
  - destruct Hres as (-> & B & H2 & H3).
    destruct (Z.eq_dec e (-1074)) as [He|He]; [left|right].
    + rewrite fexp_eq in *.
      assert (Hz : Z.max (Zdigits2 M + E - 53) (-1074) - E = 0) by lia.
      rewrite Hz in Hr. apply rounded_exact in Hr. subst m1.
      f_equal. rewrite <- H3, scaled_shift by lia. f_equal. lia.
    + destruct (bounded_digits m e B). lia.
Qed.

Lemma sub_exact_or_normal (x y : number) :
  is_number x -> is_number y -> finite x = true -> finite y = true ->
  match sub x y with
  | S754_finite s m e => units (sub x y) = units x - units y \/ -1074 < e
  | S754_zero _ => units x - units y = 0
  | _ => True
  end.
Proof.
  intros Vx Vy Fx Fy.
  destruct x as [sx|sx| |sx mx ex], y as [sy|sy| |sy my ey]; try discriminate.
  - destruct sx, sy; reflexivity.
  - unfold sub. cbn [SFsub]. left. cbn [units]. destruct sy; cbn; lia.
  - unfold sub. cbn [SFsub]. left. cbn [units]. lia.
  - destruct (bounded_digits mx ex Vx) as (Ex & _). destruct (bounded_digits my ey Vy) as (Ey & _).
    unfold sub. cbn [SFsub]. set (ez := Z.min ex ey).
    assert (Hz : -1074 <= ez <= ex /\ ez <= ey) by (unfold ez; lia).
    pose proof (aligned_units sx mx ex ez ltac:(lia) ltac:(lia)) as Ax.
    pose proof (aligned_units sy my ey ez ltac:(lia) ltac:(lia)) as Ay.
    set (A := cond_Zopp sx _) in *. set (B := cond_Zopp sy _) in *.
    assert (Hv : scaled (A - B) ez = units (S754_finite sx mx ex) - units (S754_finite sy my ey)).
    { rewrite scaled_sub, Ax, Ay. reflexivity. }
    destruct (A - B) as [|p|p] eqn:Ez; cbn [binary_normalize].
    + rewrite <- Hv. reflexivity.
    + unfold binary_round.
      pose proof (shl_align_fexp p ez) as [A1 A2]. cbv zeta in A1, A2. specialize (A2 ltac:(lia)).
      pose proof (shl_align_scaled p ez (fexp prec emax (Zpos (digits2_pos p) + ez))) as A3.
      rewrite fexp_eq in A3 at 1 2. specialize (A3 ltac:(lia) ltac:(lia)).
      destruct (shl_align p ez _) as [mz ez']. cbn [fst snd] in *.
      pose proof (round_aux_exact_or_normal false (Zpos mz) ez' ltac:(lia) A2 A1) as H.
      destruct (binary_round_aux prec emax false (Zpos mz) ez' loc_Exact) as [s'|s'| |s' m e];
        try exact I; [contradiction|].
      destruct H as [H|H]; [left|right; exact H].
      rewrite <- Hv. cbn [units]. rewrite H. cbn [cond_Zopp]. rewrite A3. reflexivity.
    + unfold binary_round.
      pose proof (shl_align_fexp p ez) as [A1 A2]. cbv zeta in A1, A2. specialize (A2 ltac:(lia)).
      pose proof (shl_align_scaled p ez (fexp prec emax (Zpos (digits2_pos p) + ez))) as A3.
      rewrite fexp_eq in A3 at 1 2. specialize (A3 ltac:(lia) ltac:(lia)).
      destruct (shl_align p ez _) as [mz ez']. cbn [fst snd] in *.
      pose proof (round_aux_exact_or_normal true (Zpos mz) ez' ltac:(lia) A2 A1) as H.
      destruct (binary_round_aux prec emax true (Zpos mz) ez' loc_Exact) as [s'|s'| |s' m e];
        try exact I; [contradiction|].
      destruct H as [H|H]; [left|right; exact H].
      rewrite <- Hv. cbn [units]. rewrite H. cbn [cond_Zopp]. rewrite A3.
      rewrite <- scaled_opp. reflexivity.
Qed.

End RoundingOrder.

(** * Values between two bounds *)

Section Ranges.
Import Js.
Local Open Scope Z_scope.

(** *** Integers and [Math.floor] *)

(** An integer below [2^53] in size converts exactly. *)
Lemma integer_units (z : Z) (s : bool) :
  Z.abs z < 2 ^ 53 ->
  is_number (binary_normalize prec emax z 0 s) /\
  finite (binary_normalize prec emax z 0 s) = true /\
  units (binary_normalize prec emax z 0 s) = scaled z 0.
Proof.
  intros Hz.
  assert (G : forall (t : bool) (q : positive), Zpos q < 2 ^ 53 ->
            is_number (S754_finite t (integer_mantissa q) (integer_exponent q)) /\
            finite (S754_finite t (integer_mantissa q) (integer_exponent q)) = true /\
            units (S754_finite t (integer_mantissa q) (integer_exponent q))
            = cond_Zopp t (scaled (Zpos q) 0)).
  { intros t q Hq. pose proof (digits_small q Hq) as Hd.
    split; [apply integer_form_bounded; exact Hd|]. split; [reflexivity|].
    cbn [units]. f_equal. rewrite integer_mantissa_value by exact Hd.
    assert (-52 <= integer_exponent q <= 0) by (unfold integer_exponent; lia).
    rewrite scaled_shift by lia. f_equal. lia. }
  destruct z as [|q|q].
  - split; [reflexivity|split; reflexivity].
  - change (binary_normalize prec emax (Zpos q) 0 s) with (of_Z (Zpos q)).
    rewrite of_Z_pos by lia. apply (G false); lia.
  - change (binary_normalize prec emax (Zneg q) 0 s) with (of_Z (Zneg q)).
    rewrite of_Z_neg by lia. destruct (G true q ltac:(lia)) as (G1 & G2 & G3).
    repeat split; assumption.
Qed.

(** [Math.floor] of a finite number is a finite number, the largest
    multiple of [1] not above it. *)
Lemma floor_units (x : number) :
  is_number x -> finite x = true ->
  is_number (Math_floor x) /\ finite (Math_floor x) = true /\
  units (Math_floor x) = units x / 2 ^ 2148 * 2 ^ 2148.
Proof.
  intros Vx Fx.
  assert (P : 0 < 2 ^ 2148) by (apply Z.pow_pos_nonneg; lia).
  destruct x as [s|s| |s m e]; try discriminate.
  - repeat split.
  - destruct (bounded_digits m e Vx) as (He & Um & _).
    unfold Math_floor. destruct (Z.leb_spec 0 e) as [Hpos|Hneg].
    + split; [exact Vx|]. split; [reflexivity|].
      assert (Es : scaled (Zpos m) e = Zpos m * 2 ^ e * 2 ^ 2148).
      { unfold scaled. rewrite Z.pow_add_r by lia. ring. }
      cbn [units]. rewrite Es.
      destruct s; cbn [cond_Zopp].
      * rewrite <- Z.mul_opp_l, Z.div_mul by lia. reflexivity.
      * rewrite Z.div_mul by lia. reflexivity.
    + set (n := - e). assert (Hn : 0 < n <= 1074) by (unfold n; lia).
      rewrite Z.shiftr_div_pow2, Z.shiftl_mul_pow2 by lia.
      set (T := 2 ^ n). assert (HT : 0 < T) by (apply Z.pow_pos_nonneg; lia).
      assert (HT2 : 2 <= T).
      { unfold T. replace n with (Z.succ (n - 1)) by lia. rewrite Z.pow_succ_r by lia.
        assert (0 < 2 ^ (n - 1)) by (apply Z.pow_pos_nonneg; lia). lia. }
      set (c := 2 ^ (e + 2148)). assert (Hc : 0 < c) by (apply Z.pow_pos_nonneg; lia).
      assert (E2 : 2 ^ 2148 = T * c).
      { unfold T, c. rewrite <- Z.pow_add_r by lia. f_equal. lia. }
      pose proof (Z.div_mod (Zpos m) T ltac:(lia)) as Dm.
      pose proof (Z.mod_pos_bound (Zpos m) T HT) as Bm.
      set (q := Zpos m / T) in *.
      assert (Hq : 0 <= q /\ q + 1 < 2 ^ 53).
      { split; [apply Z.div_pos; lia|]. nia. }
      set (z := if s then if Zpos m =? q * T then - q else - (q + 1) else q).
      assert (Hz : Z.abs z < 2 ^ 53).
      { unfold z. destruct s; [destruct (_ =? _)|]; lia. }
      destruct (integer_units z s Hz) as (I1 & I2 & I3).
      split; [exact I1|]. split; [exact I2|]. rewrite I3.
      unfold scaled at 1. change (0 + 2148) with 2148. f_equal.
      cbn [units]. unfold scaled. fold c. rewrite E2.
      unfold z. destruct s; cbn [cond_Zopp].
      * rewrite <- Z.mul_opp_l, Z.div_mul_cancel_r by lia.
        destruct (Z.eqb_spec (Zpos m) (q * T)) as [Hw|Hw].
        -- rewrite Hw, <- Z.mul_opp_l, Z.div_mul by lia. reflexivity.
        -- apply (Z.div_unique_pos _ _ _ (T - Zpos m mod T)); lia.
      * rewrite Z.div_mul_cancel_r by lia. reflexivity.
Qed.

Lemma floor_le (x : number) :
  is_number x -> finite x = true -> le (Math_floor x) x = true.
Proof.
  intros Vx Fx. destruct (floor_units x Vx Fx) as (V & F & E).
  apply le_units; try assumption. rewrite E.
  rewrite Z.mul_comm. apply Z.mul_div_le. apply Z.pow_pos_nonneg; lia.
Qed.

Lemma floor_mono (x y : number) :
  is_number x -> is_number y -> finite x = true -> finite y = true ->
  le x y = true -> le (Math_floor x) (Math_floor y) = true.
Proof.
  intros Vx Vy Fx Fy H. apply le_units in H; try assumption.
  destruct (floor_units x Vx Fx) as (V1 & F1 & E1).
  destruct (floor_units y Vy Fy) as (V2 & F2 & E2).
  apply le_units; try assumption. rewrite E1, E2.
  apply Z.mul_le_mono_nonneg_r; [apply Z.pow_nonneg; lia|].
  apply Z.div_le_mono; [apply Z.pow_pos_nonneg; lia|exact H].
Qed.

(** A value between two finite values is finite. *)
Lemma between_finite (a x b : number) :
  finite a = true -> finite b = true -> le a x = true -> le x b = true -> finite x = true.
Proof.
  destruct a as [[]|[]| |[] ma ea], x as [[]|[]| |[] mx ex], b as [[]|[]| |[] mb eb];
    try discriminate; reflexivity.
Qed.

(** *** The interpolation of [rf] *)

(** [u * (high - low) + low] for a draw [u] and finite [low <= high] whose
    difference does not overflow: a finite number between the two bounds.
    The product is at most the exact difference: either the difference was
    not rounded up, or it is normal and the product is strictly below it, and
    then below the exact difference too, no representable value lying
    between the two. *)
Lemma interpolation_range (u low high : number) :
  unit_draw u -> is_number low -> is_number high ->
  finite low = true -> finite high = true -> le low high = true ->
  finite (sub high low) = true ->
  let r := add (mul u (sub high low)) low in
  is_number r /\ finite r = true /\ le low r = true /\ le r high = true.
Proof.
  intros Hu Vl Vh Fl Fh Hle Fw r.
  pose proof (unit_draw_bound u Hu) as [U0 U1].
  pose proof Hu as (Vu & _ & _).
  assert (Fu : finite u = true).
  { destruct Hu as (_ & H1 & H2). destruct u as [[]|[]| |]; try discriminate; reflexivity. }
  apply (le_units low high Vl Vh Fl Fh) in Hle.
  remember (sub high low) as w eqn:Ew.
  assert (Vw : is_number w) by (rewrite Ew; apply sub_valid; assumption).
  assert (W0 : 0 <= units w).
  { apply (le_units zero w); try assumption; try reflexivity.
    rewrite Ew. apply sub_le_lower; try assumption; try reflexivity.
    change (units zero) with 0. lia. }
  set (p := mul u w) in *.
  assert (Vp : is_number p) by (apply mul_valid; assumption).
  assert (P0 : le zero p = true).
  { apply mul_le_lower; try assumption; try reflexivity. change (units zero) with 0. nia. }
  assert (P1 : le p w = true).
  { apply mul_le_upper; try assumption.
    assert (2 ^ 2148 - 2 ^ 2095 <= 2 ^ 2148)
      by (assert (0 < 2 ^ 2095) by (apply Z.pow_pos_nonneg; lia); lia).
    nia. }
  assert (Fp : finite p = true) by (apply (between_finite zero p w); auto).
  apply (le_units zero p) in P0; try assumption; try reflexivity. change (units zero) with 0 in P0.
  apply (le_units p w) in P1; try assumption.
  (* the product is at most the exact difference *)
  assert (Hp : units p <= units high - units low).
  { pose proof (sub_exact_or_normal high low Vh Vl Fh Fl) as Hs. rewrite <- Ew in Hs.
    destruct w as [sw|sw| |sw mw ew]; try discriminate.
    - cbn [units] in P1. lia.
    - destruct Hs as [Hs|Hs]; [lia|].
      destruct sw; [pose proof (units_finite_pos mw ew Vw); cbn [units cond_Zopp] in W0; lia|].
      pose proof (mul_unit_lt u mw ew Hu Vw Hs) as Hlt. fold p in Hlt.
      apply (lt_units p (S754_finite false mw ew)) in Hlt; try assumption.
      destruct (Z.le_gt_cases (units p) (units high - units low)) as [|Hgt]; [assumption|exfalso].
      assert (Hc : le (sub high low) p = true)
        by (apply sub_le_upper; try assumption; lia).
      rewrite <- Ew in Hc. apply (le_units (S754_finite false mw ew) p) in Hc; try assumption.
      lia. }
  assert (Vr : is_number r) by (apply add_valid; assumption).
  assert (R0 : le low r = true) by (apply add_le_lower; try assumption; lia).
  assert (R1 : le r high = true) by (apply add_le_upper; try assumption; lia).
  split; [exact Vr|]. split; [|split; assumption].
  apply (between_finite low r high); assumption.
Qed.

Lemma min_max_finite (a b : number) :
  is_number a -> is_number b -> finite a = true -> finite b = true ->
  is_number (Math_min a b) /\ is_number (Math_max a b) /\
  finite (Math_min a b) = true /\ finite (Math_max a b) = true /\
  le (Math_min a b) (Math_max a b) = true.
Proof.
  intros Va Vb Fa Fb.
  assert (Na : a <> nan) by (intros ->; discriminate).
  assert (Nb : b <> nan) by (intros ->; discriminate).
  destruct (Math_min_cases a b Na Nb) as [[-> Hc]|[-> Hc]],
           (Math_max_cases a b Na Nb) as [[-> Hd]|[-> Hd]];
    repeat split; try assumption.
  - apply number_le_refl; assumption.
  - apply le_SFcompare. exact Hc.
  - apply number_le_swap. exact Hc.
  - apply number_le_refl; assumption.
Qed.

(** X31: for a position [loc] in [[0, 1)] and finite limits [min <= max]
    whose difference does not overflow, [interp(loc, min, max)] lies between
    the limits, both included. *)
Theorem interp_in_range (loc min max : number) :
  unit_draw loc -> is_number min -> is_number max ->
  finite min = true -> finite max = true -> le min max = true ->
  finite (sub max min) = true ->
  le min (interp loc min max) = true /\ le (interp loc min max) max = true.
Proof.
  intros Hu Vl Vh Fl Fh Hle Fw.
  destruct (interpolation_range loc min max Hu Vl Vh Fl Fh Hle Fw) as (_ & _ & R0 & R1).
  split; assumption.
Qed.

Lemma interp_in_range_witness :
  unit_draw half /\ is_number (of_Z 2) /\ is_number (of_Z 4) /\
  finite (of_Z 2) = true /\ finite (of_Z 4) = true /\ le (of_Z 2) (of_Z 4) = true /\
  finite (sub (of_Z 4) (of_Z 2)) = true /\
  le (of_Z 2) (interp half (of_Z 2) (of_Z 4)) = true /\
  le (interp half (of_Z 2) (of_Z 4)) (of_Z 4) = true.
Proof.
  assert (H1 : unit_draw half) by (vm_compute; repeat split).
  assert (H2 : is_number (of_Z 2)) by reflexivity.
  assert (H3 : is_number (of_Z 4)) by reflexivity.
  assert (H4 : finite (of_Z 2) = true) by reflexivity.
  assert (H5 : finite (of_Z 4) = true) by reflexivity.
  assert (H6 : le (of_Z 2) (of_Z 4) = true) by reflexivity.
  assert (H7 : finite (sub (of_Z 4) (of_Z 2)) = true) by reflexivity.
  exact (conj H1 (conj H2 (conj H3 (conj H4 (conj H5 (conj H6 (conj H7
           (interp_in_range half (of_Z 2) (of_Z 4) H1 H2 H3 H4 H5 H6 H7)))))))).
Defined.

(** At [loc = 1] the bound can be passed: [interp(1, -1, 2^53 + 2)] is
    [2^53 + 4]. *)
Example interp_at_one_passes_max :
  interp one (of_Z (-1)) (of_Z (2 ^ 53 + 2)) = of_Z (2 ^ 53 + 4) /\
  lt (of_Z (2 ^ 53 + 2)) (of_Z (2 ^ 53 + 4)) = true.
Proof. vm_compute. split; reflexivity. Qed.

End Ranges.

(** * Polar coordinates *)

Section PolarCoordinates.
Import Js Polar.
Local Open Scope Z_scope.

(** *** Square roots *)

(** [Math.sqrt] returns a binary64 value. *)
Lemma sqrt_valid (v : number) : is_number (Math_sqrt v).
Proof.
  destruct v as [[]|[]| |[] m e]; try reflexivity.
  unfold Math_sqrt. cbn [SFsqrt]. unfold SFsqrt_core_binary.
  set (d := Zdigits2 (Zpos m)).
  set (e' := Z.min (fexp prec emax (Z.div2 (d + e + 1))) (Z.div2 e)).
  set (s := e - 2 * e').
  assert (Hd : 0 < d) by (unfold d; cbn; lia).
  pose proof (Zdigits2_bounds (Zpos m) ltac:(lia)) as [DL _]. fold d in DL.
  assert (He2 : 2 * Z.div2 e <= e).
  { rewrite Z.div2_div. pose proof (Z.div_mod e 2 ltac:(lia)).
    pose proof (Z.mod_pos_bound e 2 ltac:(lia)). lia. }
  assert (Hh : 2 * Z.div2 (d + e + 1) <= d + e + 1).
  { rewrite Z.div2_div. pose proof (Z.div_mod (d + e + 1) 2 ltac:(lia)).
    pose proof (Z.mod_pos_bound (d + e + 1) 2 ltac:(lia)). lia. }
  assert (Hs : 0 <= s) by (unfold s, e'; lia).
  set (m' := match s with Zpos _ => Z.shiftl (Zpos m) s | Z0 => Zpos m | Zneg _ => 0 end).
  assert (Hm' : m' = Zpos m * 2 ^ s).
  { unfold m'. destruct s as [|p|p] eqn:Es; [lia| |lia].
    rewrite Z.shiftl_mul_pow2 by lia. reflexivity. }
  assert (Hm'pos : 0 < m').
  { rewrite Hm'. apply Z.mul_pos_pos; [lia|apply Z.pow_pos_nonneg; lia]. }
  pose proof (Z.sqrtrem_spec m' ltac:(lia)) as Hq.
  destruct (Z.sqrtrem m') as [q r].
  destruct Hq as [Hq1 Hq2]. clearbody m'.
  assert (Hq0 : 0 <= q) by (clear - Hq2; lia).
  apply binary_round_aux_valid; [exact Hq0|].
  rewrite fexp_eq.
  destruct (Z.le_gt_cases e' (-1074)) as [|Hbig]; [lia|].
  assert (Hlow : 53 + e' <= Z.div2 (d + e + 1)).
  { assert (He' : e' <= fexp prec emax (Z.div2 (d + e + 1))) by (unfold e'; lia).
    rewrite fexp_eq in He'. lia. }
  assert (Hq52 : 2 ^ 52 <= q).
  { destruct (Z.le_gt_cases (2 ^ 52) q) as [|Hlt]; [assumption|exfalso].
    assert (A : 2 ^ 104 <= m').
    { rewrite Hm'. replace 104 with ((104 - s) + s) by lia.
      destruct (Z.le_gt_cases s 104) as [Hs104|Hs104].
      - rewrite (Z.pow_add_r 2 (104 - s) s) by lia.
        apply Z.mul_le_mono_nonneg_r; [apply Z.pow_nonneg; lia|].
        eapply Z.le_trans; [|exact DL]. apply Z.pow_le_mono_r; unfold s; lia.
      - replace (104 - s + s) with 104 by lia.
        assert (2 ^ 104 <= 2 ^ s) by (apply Z.pow_le_mono_r; lia).
        assert (0 < 2 ^ s) by (apply Z.pow_pos_nonneg; lia). nia. }
    assert (B : (q + 1) * (q + 1) <= 2 ^ 104).
    { change (2 ^ 104) with (2 ^ 52 * 2 ^ 52). nia. }
    nia. }
  apply Zdigits2_ge in Hq52. lia.
Qed.

(** *** Multiplication by [-1] *)





(** *** toPolar *)

Lemma two_PI : mul two Math_PI = S754_finite false 7074237752028440 (-50).
Proof. reflexivity. Qed.

Lemma units_two_PI : units (mul two Math_PI) = 2 * units Math_PI.
Proof. rewrite two_PI. vm_compute. reflexivity. Qed.

Lemma units_neg (v : number) : units (neg v) = - units v.
Proof. apply units_opp. Qed.

Lemma nonneg_le_zero (d : number) : SFabs d = d -> d <> nan -> le zero d = true.
Proof.
  intros Ha Hn. destruct d as [[]|[]| |[] m e]; try discriminate; try reflexivity.
  now elim Hn.
Qed.

Lemma radius_nonneg (x y : number) :
  SFabs (Math_sqrt (add (mul x x) (mul y y))) = Math_sqrt (add (mul x x) (mul y y)).
Proof. apply sqrt_nonneg, add_nonneg; apply square_nonneg. Qed.

Lemma radius_not_nan (x y : number) :
  x <> nan -> y <> nan -> Math_sqrt (add (mul x x) (mul y y)) <> nan.
Proof.
  intros Hx Hy. apply sqrt_not_nan.
  - apply add_nonneg; apply square_nonneg.
  - apply add_nonneg_not_nan; try apply square_nonneg; now apply square_not_nan.
Qed.

Lemma radius_nan (x y : number) :
  x = nan \/ y = nan -> Math_sqrt (add (mul x x) (mul y y)) = nan.
Proof.
  intros [->| ->]; [reflexivity|].
  change (mul nan nan) with nan. rewrite add_nan_r. reflexivity.
Qed.

(** The angle after the correction of [toPolar], for any [theta] in
    [[-Math.PI, Math.PI]]. *)
Lemma angle_range (theta : number) :
  is_number theta -> le (neg Math_PI) theta = true -> le theta Math_PI = true ->
  let a := if lt theta zero then add theta (mul two Math_PI) else theta in
  is_number a /\ le zero a = true /\ le a (mul two Math_PI) = true.
Proof.
  intros Vt Hlo Hhi a.
  assert (Ft : finite theta = true) by (apply (between_finite (neg Math_PI) theta Math_PI); auto).
  assert (VP : is_number Math_PI) by reflexivity.
  assert (V2 : is_number (mul two Math_PI)) by reflexivity.
  apply le_units in Hlo; try assumption; try reflexivity.
  apply le_units in Hhi; try assumption; try reflexivity.
  rewrite units_neg in Hlo.
  pose proof units_two_PI as E2.
  assert (Ppos : 0 < units Math_PI) by (apply (units_finite_pos 7074237752028440 (-51)); reflexivity).
  set (vp := units Math_PI) in *. set (v2 := units (mul two Math_PI)) in *.
  unfold a. destruct (lt theta zero) eqn:Hneg.
  - apply lt_units in Hneg; try assumption; try reflexivity. change (units zero) with 0 in Hneg.
    assert (Va : is_number (add theta (mul two Math_PI))) by (apply add_valid; assumption).
    assert (L : le Math_PI (add theta (mul two Math_PI)) = true).
    { apply add_le_lower; try assumption; try reflexivity. fold vp v2. lia. }
    assert (U : le (add theta (mul two Math_PI)) (mul two Math_PI) = true).
    { apply add_le_upper; try assumption; try reflexivity. fold v2. lia. }
    assert (Fa : finite (add theta (mul two Math_PI)) = true)
      by (apply (between_finite Math_PI _ (mul two Math_PI)); auto).
    split; [exact Va|]. split; [|exact U].
    apply le_units in L; try assumption; try reflexivity.
    apply le_units; try assumption; try reflexivity. change (units zero) with 0. fold vp in L. lia.
  - split; [exact Vt|]. split.
    + apply le_units; try assumption; try reflexivity. change (units zero) with 0.
      destruct (Z.le_gt_cases 0 (units theta)) as [|Hlt]; [assumption|exfalso].
      assert (lt theta zero = true); [|congruence].
      apply lt_units; try assumption; reflexivity.
    + apply le_units; try assumption; try reflexivity. fold v2. lia.
Qed.

Lemma coarse_atan2_conforms : atan2_conforms coarse_atan2.
Proof.
  intros y x. split; [|split].
  - destruct y, x; reflexivity.
  - intros [->| ->]; [reflexivity|]. destruct y; reflexivity.
  - intros Hy Hx. unfold nan in *. destruct y, x; try congruence; split; reflexivity.
Qed.

End PolarCoordinates.

(** * Random choice *)

Section Picking.
Import Js.
Local Open Scope Z_scope.

(** *** pick *)

(** [~~p] for a number from [0] to below [2^31] is its integer part. *)
Lemma to_int32_units (p : number) :
  is_number p -> finite p = true -> 0 <= units p < 2 ^ 31 * 2 ^ 2148 ->
  to_int32 p = units p / 2 ^ 2148.
Proof.
  intros Vp Fp [H0 H1].
  assert (P : 0 < 2 ^ 2148) by (apply Z.pow_pos_nonneg; lia).
  destruct p as [s|s| |s m e]; try discriminate; try reflexivity.
  pose proof (units_finite_pos m e Vp) as [Pm _].
  destruct (bounded_digits m e Vp) as (He & _).
  destruct s; cbn [units cond_Zopp] in H0, H1; [lia|].
  cbn [to_int32 units cond_Zopp].
  assert (Ht : (if 0 <=? e then Z.shiftl (Zpos m) e else Z.shiftr (Zpos m) (- e))
               = scaled (Zpos m) e / 2 ^ 2148).
  { destruct (Z.leb_spec 0 e) as [Hpos|Hneg].
    - rewrite Z.shiftl_mul_pow2 by lia. unfold scaled.
      rewrite Z.pow_add_r, Z.mul_assoc, Z.div_mul by lia. reflexivity.
    - rewrite Z.shiftr_div_pow2 by lia. unfold scaled.
      assert (E2 : 2 ^ 2148 = 2 ^ (- e) * 2 ^ (e + 2148)).
      { rewrite <- Z.pow_add_r by lia. f_equal. lia. }
      rewrite E2, Z.div_mul_cancel_r; try reflexivity;
        apply Z.neq_sym, Z.lt_neq, Z.pow_pos_nonneg; lia. }
  rewrite Ht.
  assert (Hq : 0 <= scaled (Zpos m) e / 2 ^ 2148 < 2 ^ 31).
  { split; [apply Z.div_pos; lia|]. apply Z.div_lt_upper_bound; lia. }
  rewrite Z.mod_small by lia. lia.
Qed.

(** X28: for every draw in [[0, 1)] and a non-empty list of fewer than
    [2^31] arguments, [pick] returns one of its arguments: the binary64
    product of the draw and the length stays below the length, so the index
    [~~(draw * length)] is within the list. *)
Theorem pick_returns_an_argument (A : Type) (u : number) (arguments : list A) :
  unit_draw u -> arguments <> [] -> Z.of_nat (length arguments) < 2 ^ 31 ->
  exists a, pick u arguments = Some a /\ In a arguments.
Proof.
  intros Hu Hne Hlen.
  set (n := Z.of_nat (length arguments)) in *.
  assert (Hn : 0 < n) by (unfold n; destruct arguments; [congruence|cbn [length]; lia]).
  pose proof Hu as (Vu & Hu0 & Hu1).
  assert (Fu : finite u = true)
    by (clear - Hu0 Hu1; destruct u as [[]|[]| |]; try discriminate; reflexivity).
  pose proof (unit_draw_bound u Hu) as [U0 _].
  destruct n as [|q|q] eqn:En; try lia.
  assert (Hq : Zpos q < 2 ^ 53) by lia.
  assert (Ew : of_nat (length arguments)
               = S754_finite false (integer_mantissa q) (integer_exponent q)).
  { unfold of_nat. fold n. rewrite En. apply of_Z_pos. exact Hq. }
  destruct (integer_units (Zpos q) false ltac:(lia)) as (Vw & _ & Ev).
  change (binary_normalize prec emax (Zpos q) 0 false) with (of_Z (Zpos q)) in Vw, Ev.
  rewrite of_Z_pos in Vw, Ev by exact Hq.
  assert (Hew : -1074 < integer_exponent q) by (unfold integer_exponent; lia).
  pose proof (mul_unit_lt u _ _ Hu Vw Hew) as Hlt.
  set (w := S754_finite false (integer_mantissa q) (integer_exponent q)) in *.
  set (p := mul u w) in *.
  assert (Vp : is_number p) by (apply mul_valid; assumption).
  assert (P0 : le zero p = true).
  { apply mul_le_lower; try assumption; try reflexivity. change (units zero) with 0.
    assert (0 <= units w) by (pose proof (units_finite_pos _ _ Vw); unfold w; cbn [units cond_Zopp]; lia).
    rewrite Z.mul_0_l. apply Z.mul_nonneg_nonneg; assumption. }
  assert (Fp : finite p = true).
  { apply (between_finite zero p w); try reflexivity; try assumption.
    unfold le, SFleb. unfold lt, SFltb in Hlt. destruct (SFcompare p w) as [[]|]; try discriminate;
      reflexivity. }
  apply (le_units zero p) in P0; try assumption; try reflexivity. change (units zero) with 0 in P0.
  apply (lt_units p w) in Hlt; try assumption; try reflexivity.
  assert (Evw : units w = Zpos q * 2 ^ 2148) by (rewrite Ev; reflexivity).
  assert (P : 0 < 2 ^ 2148) by (apply Z.pow_pos_nonneg; lia).
  assert (Hi : to_int32 p = units p / 2 ^ 2148).
  { apply to_int32_units; try assumption. split; [exact P0|]. nia. }
  assert (Hr : 0 <= units p / 2 ^ 2148 < Zpos q).
  { split; [apply Z.div_pos; lia|]. apply Z.div_lt_upper_bound; lia. }
  unfold pick. rewrite Ew. fold w p. rewrite Hi.
  destruct (Z.ltb_spec (units p / 2 ^ 2148) 0) as [|_]; [lia|].
  destruct (nth_error arguments (Z.to_nat (units p / 2 ^ 2148))) as [a|] eqn:Ea.
  - exists a. split; [reflexivity|]. eapply nth_error_In. exact Ea.
  - exfalso. apply nth_error_None in Ea. lia.
Qed.

Lemma pick_returns_an_argument_witness :
  unit_draw half /\ [1; 2; 3; 4]%nat <> [] /\ Z.of_nat (length [1; 2; 3; 4]%nat) < 2 ^ 31 /\
  exists a, pick half [1; 2; 3; 4]%nat = Some a /\ In a [1; 2; 3; 4]%nat.
Proof.
  assert (H1 : unit_draw half) by (vm_compute; repeat split).
  assert (H2 : [1; 2; 3; 4]%nat <> []) by discriminate.
  assert (H3 : Z.of_nat (length [1; 2; 3; 4]%nat) < 2 ^ 31) by reflexivity.
  exact (conj H1 (conj H2 (conj H3 (pick_returns_an_argument nat half [1; 2; 3; 4]%nat H1 H2 H3)))).
Defined.

(** The example of the source comment, at three draws: [pick(1, 2, 3, 4)]
    returns [3] at the draw [0.5], [1] at [0] and [4] at [1 - 2^-53]. *)
Example pick_examples :
  pick half [1; 2; 3; 4]%nat = Some 3%nat /\
  pick zero [1; 2; 3; 4]%nat = Some 1%nat /\
  pick (S754_finite false 9007199254740991 (-53)) [1; 2; 3; 4]%nat = Some 4%nat.
Proof. vm_compute. repeat split. Qed.

(** X29: called with no argument, [pick] returns [undefined], whatever the
    draw: the index is [0], which an empty list does not hold. *)
Theorem pick_nothing (A : Type) (u : number) : pick u (@nil A) = None.
Proof.
  unfold pick. cbn [length]. change (of_nat 0) with zero.
  destruct u as [[]|[]| |[] m e]; reflexivity.
Qed.

End Picking.

(** * The claims *)

Section Claims.
Import Js Smooth Polar.

(** *** The examples of the source comments *)

Example clip_examples :
  clip (of_Z 11) (of_Z 0) (of_Z 10) = of_Z 10 /\
  clip (of_Z (-1)) (of_Z 0) (of_Z 10) = of_Z 0 /\
  clip (of_Z 5) (of_Z 0) (of_Z 10) = of_Z 5.
Proof. vm_compute. repeat split. Qed.

Example scale_examples :
  scale half (of_Z 0) (of_Z 1) (of_Z 0) (of_Z 10) = of_Z 5 /\
  scale (of_Z 7) (of_Z 5) (of_Z 5) (of_Z 0) (of_Z 10) = of_Z 0 /\
  invert (of_Z 0) = of_Z 1 /\ invert (of_Z 1) = of_Z 0.
Proof. vm_compute. repeat split. Qed.

Example ri_examples :
  ri zero (of_Z 20) (of_Z 2000) = of_Z 20 /\
  ri half (of_Z 20) (of_Z 2000) = of_Z 1010 /\
  ri half (of_Z 10) zero = of_Z 5.
Proof. vm_compute. repeat split. Qed.

(** *** clip *)

(** C1, as stated, fails: with limits [min = 10 > max = 0] the call
    [clip(5, 10, 0)] returns [0], the upper limit, and not [10]. *)
Lemma clip_min_above_max_counterexample :
  lt (of_Z 0) (of_Z 10) = true /\
  clip (of_Z 5) (of_Z 10) (of_Z 0) = of_Z 0 /\
  clip (of_Z 5) (of_Z 10) (of_Z 0) <> of_Z 10.
Proof. vm_compute. repeat split; discriminate. Qed.

(** C1 (amended): for all limits with [min > max], [clip(value, min, max)]
    returns [max] for every value other than [NaN], and [NaN] for the value
    [NaN]. *)
Theorem clip_min_above_max (value min max : number) :
  lt max min = true ->
  (value <> nan -> clip value min max = max) /\
  (value = nan -> clip value min max = nan).
Proof.
  intros Hlt. split; [|intros ->; reflexivity].
  intros Hnan. apply lt_SFcompare in Hlt.
  assert (Hm : SFcompare max (Math_max value min) = Some Lt).
  { unfold Math_max. destruct (SFcompare value min) as [[]|] eqn:Hc.
    - assert (SFcompare max value = Some Lt) by (eapply SFcompare_Eq_Lt; eauto).
      destruct value as [[]| | |], min as [[]| | |]; try assumption; try discriminate.
    - assumption.
    - apply SFcompare_Lt_trans with min; [assumption|].
      apply SFcompare_Gt_Lt. assumption.
    - exfalso. unfold nan in Hnan.
      destruct value, min, max; cbn in *; try discriminate; congruence. }
  unfold clip, Math_min. rewrite (SFcompare_Lt_Gt _ _ Hm). reflexivity.
Qed.

Lemma clip_min_above_max_witness :
  lt (of_Z 0) (of_Z 10) = true /\
  (of_Z 5 <> nan -> clip (of_Z 5) (of_Z 10) (of_Z 0) = of_Z 0) /\
  (of_Z 5 = nan -> clip (of_Z 5) (of_Z 10) (of_Z 0) = nan).
Proof.
  assert (H1 : lt (of_Z 0) (of_Z 10) = true) by (vm_compute; reflexivity).
  exact (conj H1 (clip_min_above_max (of_Z 5) (of_Z 10) (of_Z 0) H1)).
Defined.

(** *** ri, rf *)

(** C2, as stated, fails on the binary64 code at both ends of the interval.
    - [ri] floors: with the draw [0], [ri(0.5, 1.5)] is [Math.floor(0.5) = 0],
      below [min(0.5, 1.5)].
    - The last addition rounds: with the largest draw below [1], which is
      [1 - 2^-53], the sum [u * (2 - 1) + 1] rounds to [2], and [rf(1, 2)] and
      [ri(1, 2)] are the upper bound itself.
    - When both bounds are [3] the interval [[3, 3)] is empty, while
      [rf(3, 3)] returns [3].
    - With the bounds [-MAX] and [MAX], the largest finite number, the width
      [high - low] overflows to [Infinity], and at the draw [0] the product
      [0 * Infinity] makes the result [NaN]. *)
Lemma random_range_counterexample :
  (unit_draw zero /\ falsy (dyadic 3 (-1)) = false /\
   ri zero half (dyadic 3 (-1)) = zero /\
   lt (ri zero half (dyadic 3 (-1))) (Math_min half (dyadic 3 (-1))) = true) /\
  (unit_draw (S754_finite false 9007199254740991 (-53)) /\ falsy two = false /\
   rf (S754_finite false 9007199254740991 (-53)) one two = two /\
   ri (S754_finite false 9007199254740991 (-53)) one two = two /\
   Math_max one two = two /\
   lt (rf (S754_finite false 9007199254740991 (-53)) one two) (Math_max one two) = false) /\
  (falsy (of_Z 3) = false /\ rf zero (of_Z 3) (of_Z 3) = of_Z 3 /\
   lt (rf zero (of_Z 3) (of_Z 3)) (Math_max (of_Z 3) (of_Z 3)) = false) /\
  (is_number (S754_finite false 9007199254740991 971) /\
   falsy (S754_finite false 9007199254740991 971) = false /\
   rf zero (S754_finite true 9007199254740991 971) (S754_finite false 9007199254740991 971)
   = nan).
Proof. vm_compute. repeat split. Qed.

(** C2 (amended): for all finite numbers [a] and [b], [b] not falsy, whose
    difference [max(a,b) - min(a,b)] does not overflow, and every draw [u] in
    [[0, 1)], [rf(a, b)] lies in the closed interval [[min(a,b), max(a,b)]];
    [ri(a, b)] is the floor of that value, so it lies in
    [[floor(min(a,b)), max(a,b)]], and in [[min(a,b), max(a,b)]] whenever
    [min(a,b)] is an integer.  All comparisons are those of binary64. *)
Theorem random_in_range (u a b : number) :
  unit_draw u -> is_number a -> is_number b ->
  finite a = true -> finite b = true -> falsy b = false ->
  finite (sub (Math_max a b) (Math_min a b)) = true ->
  le (Math_min a b) (rf u a b) = true /\ le (rf u a b) (Math_max a b) = true /\
  ri u a b = Math_floor (rf u a b) /\
  le (Math_floor (Math_min a b)) (ri u a b) = true /\ le (ri u a b) (Math_max a b) = true /\
  (Math_floor (Math_min a b) = Math_min a b -> le (Math_min a b) (ri u a b) = true).
Proof.
  intros Hu Va Vb Fa Fb Hb Fw.
  destruct (min_max_finite a b Va Vb Fa Fb) as (Vl & Vh & Fl & Fh & Hle).
  assert (Erf : rf u a b = add (mul u (sub (Math_max a b) (Math_min a b))) (Math_min a b))
    by (unfold rf; rewrite Hb; reflexivity).
  assert (Eri : ri u a b = Math_floor (rf u a b))
    by (unfold ri, rf; rewrite Hb; reflexivity).
  destruct (interpolation_range u _ _ Hu Vl Vh Fl Fh Hle Fw) as (Vr & Fr & R0 & R1).
  cbv zeta in Vr, Fr, R0, R1. rewrite <- Erf in Vr, Fr, R0, R1.
  destruct (floor_units (rf u a b) Vr Fr) as (Vf & Ff & _).
  assert (F0 : le (Math_floor (Math_min a b)) (ri u a b) = true)
    by (rewrite Eri; apply floor_mono; assumption).
  assert (F1 : le (ri u a b) (Math_max a b) = true).
  { rewrite Eri. pose proof (floor_le (rf u a b) Vr Fr) as H.
    apply le_units in H; try assumption. apply le_units in R1; try assumption.
    apply le_units; try assumption. lia. }
  repeat split; try assumption. intros E. rewrite <- E. exact F0.
Qed.

Lemma random_in_range_witness :
  unit_draw half /\ is_number (of_Z 20) /\ is_number (of_Z 2000) /\
  finite (of_Z 20) = true /\ finite (of_Z 2000) = true /\ falsy (of_Z 2000) = false /\
  finite (sub (Math_max (of_Z 20) (of_Z 2000)) (Math_min (of_Z 20) (of_Z 2000))) = true /\
  le (Math_min (of_Z 20) (of_Z 2000)) (rf half (of_Z 20) (of_Z 2000)) = true /\
  le (rf half (of_Z 20) (of_Z 2000)) (Math_max (of_Z 20) (of_Z 2000)) = true /\
  ri half (of_Z 20) (of_Z 2000) = Math_floor (rf half (of_Z 20) (of_Z 2000)) /\
  le (Math_floor (Math_min (of_Z 20) (of_Z 2000))) (ri half (of_Z 20) (of_Z 2000)) = true /\
  le (ri half (of_Z 20) (of_Z 2000)) (Math_max (of_Z 20) (of_Z 2000)) = true /\
  (Math_floor (Math_min (of_Z 20) (of_Z 2000)) = Math_min (of_Z 20) (of_Z 2000) ->
   le (Math_min (of_Z 20) (of_Z 2000)) (ri half (of_Z 20) (of_Z 2000)) = true).
Proof.
  assert (H1 : unit_draw half) by (vm_compute; repeat split).
  assert (H2 : is_number (of_Z 20)) by reflexivity.
  assert (H3 : is_number (of_Z 2000)) by reflexivity.
  assert (H4 : finite (of_Z 20) = true) by reflexivity.
  assert (H5 : finite (of_Z 2000) = true) by reflexivity.
  assert (H6 : falsy (of_Z 2000) = false) by reflexivity.
  assert (H7 : finite (sub (Math_max (of_Z 20) (of_Z 2000)) (Math_min (of_Z 20) (of_Z 2000)))
               = true) by reflexivity.
  exact (conj H1 (conj H2 (conj H3 (conj H4 (conj H5 (conj H6 (conj H7
           (random_in_range half (of_Z 20) (of_Z 2000) H1 H2 H3 H4 H5 H6 H7)))))))).
Defined.

(** *** Lowpass *)

(** C3: a filter built with a positive integer capacity [k] holds, after every
    [update], the [min(total, k)] latest samples received, oldest first, and
    that [update] returns the sum of this history over its length: the
    history is not empty, and the value returned is the arithmetic mean of
    its elements, summed from the oldest on (the initial [0] of the reduction
    turning an oldest element [-0] into [+0]). *)
Theorem lowpass_window (k : Z) (samples : list number) (value : number) :
  (0 < k)%Z ->
  let call := update (feed (constructor (Some k)) samples) value in
  let total := S (length samples) in
  history (snd call) = most_recent (Nat.min total (Z.to_nat k)) (samples ++ [value]) /\
  length (history (snd call)) = Nat.min total (Z.to_nat k) /\
  fst call = div (reduce_sum (history (snd call))) (of_nat (length (history (snd call)))) /\
  exists (oldest : number) (rest : list number),
    history (snd call) = oldest :: rest /\
    fst call = arithmetic_mean (match oldest with S754_zero _ => zero | _ => oldest end) rest.
Proof.
  intros Hk call total.
  assert (E : history (snd call)
              = most_recent (Nat.min total (Z.to_nat k)) (samples ++ [value])).
  { pose proof (feed_history k (samples ++ [value]) Hk) as H.
    rewrite feed_app in H. cbn [feed] in H. subst call total.
    rewrite H, length_app. cbn [length]. now rewrite Nat.add_1_r. }
  assert (L : length (history (snd call)) = Nat.min total (Z.to_nat k)).
  { rewrite E, most_recent_length, length_app. cbn [length]. subst total. lia. }
  assert (R : fst call
              = div (reduce_sum (history (snd call))) (of_nat (length (history (snd call)))))
    by reflexivity.
  split; [exact E|]. split; [exact L|]. split; [exact R|].
  destruct (history (snd call)) as [|oldest rest] eqn:Eh.
  - exfalso. cbn [length] in L. subst total. lia.
  - exists oldest, rest. split; [reflexivity|]. rewrite R.
    unfold arithmetic_mean, reduce_sum. cbn [fold_left].
    f_equal. f_equal. destruct oldest as [[]|[]| |s m e]; reflexivity.
Qed.

Lemma lowpass_window_witness :
  (0 < 3)%Z /\
  let samples := [of_Z 1; of_Z 2; of_Z 3] in
  let call := update (feed (constructor (Some 3%Z)) samples) (of_Z 4) in
  history (snd call) = most_recent (Nat.min 4 (Z.to_nat 3)) (samples ++ [of_Z 4]) /\
  length (history (snd call)) = Nat.min 4 (Z.to_nat 3) /\
  fst call = div (reduce_sum (history (snd call))) (of_nat (length (history (snd call)))) /\
  exists (oldest : number) (rest : list number),
    history (snd call) = oldest :: rest /\
    fst call = arithmetic_mean (match oldest with S754_zero _ => zero | _ => oldest end) rest.
Proof.
  split; [reflexivity|].
  apply (lowpass_window 3 [of_Z 1; of_Z 2; of_Z 3] (of_Z 4)). reflexivity.
Defined.

(** The run of the spec: capacity [3] and the samples [1, 2, 3, 4] give
    [1, 1.5, 2, 3]. *)
Example lowpass_run :
  outputs (constructor (Some 3%Z)) [of_Z 1; of_Z 2; of_Z 3; of_Z 4]
  = [of_Z 1; dyadic 3 (-1); of_Z 2; of_Z 3].
Proof. vm_compute. reflexivity. Qed.

(** C4: a filter built with no capacity argument, and one built with
    capacity [0], return on every sequence of samples what a filter built
    with capacity [2] returns. *)
Theorem lowpass_default_capacity (samples : list number) :
  outputs (constructor None) samples = outputs (constructor (Some 2%Z)) samples /\
  outputs (constructor (Some 0%Z)) samples = outputs (constructor (Some 2%Z)) samples.
Proof.
  assert (E1 : constructor None = constructor (Some 2%Z)) by reflexivity.
  assert (E2 : constructor (Some 0%Z) = constructor (Some 2%Z)) by reflexivity.
  rewrite E1, E2. split; reflexivity.
Qed.

(** C8: [update] leaves [factor] as it was, for every filter and every
    sample; the capacity set by the constructor stays through any sequence
    of updates. *)
Theorem update_preserves_factor (self : Lowpass) (value : number) (samples : list number) :
  factor (snd (update self value)) = factor self /\
  factor (feed self samples) = factor self.
Proof. split; [apply update_factor|apply feed_factor]. Qed.

(** *** toPolar, toCartesian *)

(** C5, as stated, fails on the binary64 code.
    - A [NaN] coordinate gives the radius [NaN], which is not [>= 0], and with
      every conforming [Math.atan2] the angle [NaN], which is in no interval.
    - For the finite point [(2^600, 2^600)] the sum [x*x + y*y] overflows and
      the radius is [Infinity]; for the point [(2^-600, 2^-600)], off the
      origin, it underflows and the radius is [0].
    - The correction [theta + 2 * Math.PI] rounds: for the negative angle
      [theta = -2^-1074] it is [2 * Math.PI] itself, the upper end of the
      interval. *)
Lemma toPolar_spec_counterexample :
  (forall f, radius (toPolar f nan zero) = nan /\
             le zero (radius (toPolar f nan zero)) = false) /\
  (forall f, atan2_conforms f ->
             angle (toPolar f nan zero) = nan /\
             le zero (angle (toPolar f nan zero)) = false /\
             lt (angle (toPolar f nan zero)) (mul two Math_PI) = false) /\
  (forall f, finite (dyadic 1 600) = true /\
             radius (toPolar f (dyadic 1 600) (dyadic 1 600)) = S754_infinity false) /\
  (forall f, lt zero (dyadic 1 (-600)) = true /\
             radius (toPolar f (dyadic 1 (-600)) (dyadic 1 (-600))) = zero) /\
  lt (dyadic (-1) (-1074)) zero = true /\
  add (dyadic (-1) (-1074)) (mul two Math_PI) = mul two Math_PI.
Proof.
  split; [intros f; split; reflexivity|].
  split.
  { intros f Hf. destruct (Hf zero nan) as (_ & Hn & _).
    unfold toPolar. cbn [angle]. rewrite Hn by tauto. repeat split. }
  split; [intros f; split; vm_compute; reflexivity|].
  split; [intros f; split; vm_compute; reflexivity|].
  split; vm_compute; reflexivity.
Qed.

(** C5 (amended): with every [Math.atan2] that conforms to ECMAScript, for
    all [x] and [y], [toPolar(x, y)] has the radius [Math.sqrt(x*x + y*y)],
    computed in binary64, and the angle [Math.atan2(y, x)], plus [2 * Math.PI]
    when that is negative.  The radius is never negative.  When [x] or [y] is
    [NaN] both are [NaN].  Otherwise the radius is [0] or more, [Infinity]
    included, and the angle lies in the closed interval [[0, 2 * Math.PI]]. *)
Theorem toPolar_spec (Math_atan2 : number -> number -> number) (px py : number) :
  atan2_conforms Math_atan2 ->
  let p := toPolar Math_atan2 px py in
  let theta := Math_atan2 py px in
  radius p = Math_sqrt (add (mul px px) (mul py py)) /\
  angle p = (if lt theta zero then add theta (mul two Math_PI) else theta) /\
  is_number (radius p) /\ is_number (angle p) /\
  lt (radius p) zero = false /\
  (px = nan \/ py = nan -> radius p = nan /\ angle p = nan) /\
  (px <> nan -> py <> nan ->
   le zero (radius p) = true /\
   le zero (angle p) = true /\ le (angle p) (mul two Math_PI) = true).
Proof.
  intros Hc p theta. destruct (Hc py px) as (Vt & Hnan & Hrange). fold theta in Vt, Hnan, Hrange.
  unfold p, toPolar. cbn [radius angle]. fold theta.
  split; [reflexivity|]. split; [reflexivity|]. split; [apply sqrt_valid|].
  split; [|split; [|split]].
  - destruct (lt theta zero); [apply add_valid; [exact Vt|reflexivity]|exact Vt].
  - apply abs_not_negative, radius_nonneg.
  - intros H. split; [apply radius_nan; exact H|].
    rewrite Hnan by tauto. reflexivity.
  - intros Hx Hy. split.
    + apply nonneg_le_zero; [apply radius_nonneg|apply radius_not_nan; assumption].
    + destruct (Hrange Hy Hx) as [Hlo Hhi].
      destruct (angle_range theta Vt Hlo Hhi) as (_ & A1 & A2). split; assumption.
Qed.

Lemma toPolar_spec_witness :
  atan2_conforms coarse_atan2 /\
  let p := toPolar coarse_atan2 (of_Z 3) (of_Z 4) in
  let theta := coarse_atan2 (of_Z 4) (of_Z 3) in
  radius p = Math_sqrt (add (mul (of_Z 3) (of_Z 3)) (mul (of_Z 4) (of_Z 4))) /\
  angle p = (if lt theta zero then add theta (mul two Math_PI) else theta) /\
  is_number (radius p) /\ is_number (angle p) /\
  lt (radius p) zero = false /\
  (of_Z 3 = nan \/ of_Z 4 = nan -> radius p = nan /\ angle p = nan) /\
  (of_Z 3 <> nan -> of_Z 4 <> nan ->
   le zero (radius p) = true /\
   le zero (angle p) = true /\ le (angle p) (mul two Math_PI) = true).
Proof.
  exact (conj coarse_atan2_conforms
           (toPolar_spec coarse_atan2 (of_Z 3) (of_Z 4) coarse_atan2_conforms)).
Defined.




(** *** coin *)

(** C6: for every draw in [[0, 1)], [coin(0)] returns [0] and [coin(1)]
    returns [1]. *)
Theorem coin_boundary (u : number) :
  unit_draw u -> coin u (Some zero) = zero /\ coin u (Some one) = one.
Proof.
  intros Hu. unfold coin. rewrite (rf_unit_draw u Hu).
  destruct Hu as (Hv & Hle & Hlt).
  destruct u as [s|s| |s m e]; try discriminate; try (destruct s; discriminate).
  - split; reflexivity.
  - destruct s; [discriminate|]. rewrite Hlt. split; reflexivity.
Qed.

Lemma coin_boundary_witness :
  unit_draw half /\ coin half (Some zero) = zero /\ coin half (Some one) = one.
Proof.
  assert (H : unit_draw half) by (vm_compute; repeat split).
  exact (conj H (coin_boundary half H)).
Defined.

(** *** average *)

(** C7: [average] of the empty sequence is [NaN], a value and not an error;
    of a sequence [x :: rest] it is the arithmetic mean of the elements, the
    leading [0] of the reduction turning a first element [-0] into [+0]. *)
Theorem average_spec :
  average [] = nan /\
  (forall (x : number) (rest : list number),
     average (x :: rest)
     = arithmetic_mean (match x with S754_zero _ => zero | _ => x end) rest) /\
  average [of_Z 0; of_Z 2; of_Z 4; of_Z 6; of_Z 8; of_Z 10] = of_Z 5.
Proof.
  split; [reflexivity|]. split; [|vm_compute; reflexivity].
  intros x rest. unfold average, arithmetic_mean, reduce_sum. cbn [fold_left].
  f_equal. f_equal. destruct x as [[]|[]| |s m e]; reflexivity.
Qed.

(** *** invert *)

(** C9: for every number [x], [invert(x)], that is [scale(x, 1, 0, 0, 1)],
    is the binary64 difference [1 - x]; no range of [x] is excepted, and
    [is_number] only asks that [x] is a binary64 value. *)
Theorem invert_is_one_minus (x : number) :
  is_number x -> invert x = sub one x /\ invert x = scale x one zero zero one.
Proof.
  intros Hx. split; [|reflexivity].
  rewrite invert_eq, invert_chain, sub_swap_one; auto.
  apply sub_valid; [exact Hx|reflexivity].
Qed.

Lemma invert_is_one_minus_witness :
  is_number (of_Z 3) /\
  invert (of_Z 3) = sub one (of_Z 3) /\ invert (of_Z 3) = scale (of_Z 3) one zero zero one.
Proof.
  assert (H : is_number (of_Z 3)) by reflexivity.
  exact (conj H (invert_is_one_minus (of_Z 3) H)).
Defined.

End Claims.
